(** * easytorch.core.optimizer_builder

    A shallow embedding of [build_optim] and [build_lr_scheduler]
    (src/easytorch/core/optimizer_builder.py) and the properties of the
    parameter grouping, the type lookup and the handling of the
    configuration dictionaries.

    Python objects are modelled as follows.
    - A [dict] is an insertion-ordered association list with unique keys;
      [d[k] = v] replaces in place or appends, [==] on dicts ignores order.
    - Hyperparameter values ([value]) are the hashable objects one finds in
      optimizer settings: [None], numbers (bool, int and float compare by
      numeric value, so a number is the rational it denotes; NaN and the
      infinities are left out), strings and tuples of numbers.  On these,
      Python's [==] and [hash] agree with equality of the model.
    - A [frozenset] of items is a [gset (string * value)].
    - The keys of a dict are strings, as the keys of the configuration
      and of keyword arguments are.  An [_optim] dict with a key of
      another type is outside the model: lines 73 to 82 take it, and line
      85 raises [TypeError] when it cannot compare two keys.
    - Configuration dictionaries live in a [heap] of dict objects and are
      passed by reference, so that writes to them are visible.  A dict
      that is the value of an entry stands for any mutable value.
    - [torch.optim], [torch.optim.lr_scheduler] and the two [easyoptim]
      modules are name spaces given by an environment [env].  Their
      entries are classes and objects that cannot be called (values,
      dicts, optimizers); functions are not among the objects of the
      model.
    - What the constructor of a class does with its keyword arguments is
      given by the environment too: it runs on the heap, where the values
      of its arguments are the caller's own objects, and may write to it.
      It leaves the parameters and their [_optim] alone, and what the
      constructor of a scheduler does to the optimizer it is handed is
      not modelled: an optimizer is the value that was built.  The base
      class [torch.optim.Optimizer] (parameter groups) is modelled below
      from its documented behaviour.
    - The summary lines printed to standard output are kept apart from
      [build_optim], in [build_optim_printing]: they change neither the
      optimizer returned nor any dictionary.  How a value is formatted is
      a parameter of the summary. *)

From Stdlib Require Import QArith Qcanon.
From stdpp Require Import numbers countable strings pretty gmap fin_maps sorting list.

Open Scope string_scope.
Open Scope list_scope.

(** ** Exceptions and results *)

Inductive exn := KeyError | AttributeError | TypeError | ValueError.

Inductive result (A : Type) : Type :=
| Ok (a : A)
| Err (e : exn).
Arguments Ok {A} a.
Arguments Err {A} e.

#[global] Instance result_ret : MRet result := λ A a, Ok a.
#[global] Instance result_bind : MBind result := λ A B f m,
  match m with
  | Ok a => f a
  | Err e => Err e
  end.

(** ** Python dicts *)

Definition dict (A : Type) : Type := list (string * A).

Section dict_ops.
Context {A : Type}.

(** [d.get(k)] *)
Fixpoint dict_get (d : dict A) (k : string) : option A :=
  match d with
  | [] => None
  | (k', v) :: d' => if decide (k' = k) then Some v else dict_get d' k
  end.

(** [d[k] = v]: an existing key keeps its position. *)
Fixpoint dict_set (d : dict A) (k : string) (v : A) : dict A :=
  match d with
  | [] => [(k, v)]
  | (k', v') :: d' =>
      if decide (k' = k) then (k, v) :: d' else (k', v') :: dict_set d' k v
  end.

(** [d.update(items)], also [{**d, **items}] and [dict(items)] from [{}]. *)
Definition dict_update (d : dict A) (items : list (string * A)) : dict A :=
  foldl (λ acc kv, dict_set acc kv.1 kv.2) d items.

(** [d.setdefault(k, v)] *)
Definition dict_setdefault (d : dict A) (k : string) (v : A) : dict A :=
  match dict_get d k with
  | Some _ => d
  | None => d ++ [(k, v)]
  end.

(** Unique keys: the invariant of every Python dict. *)
Definition dict_wf (d : dict A) : Prop := NoDup d.*1.

End dict_ops.

(** [a == b] on dicts: same size, and every key of [a] is bound to an
    equal value in [b]. *)
Definition dict_eqb {A : Type} `{EqDecision A} (a b : dict A) : bool :=
  bool_decide (length a = length b)
  && forallb (λ kv, bool_decide (dict_get b kv.1 = Some kv.2)) a.

(** ** Hyperparameter values *)

Inductive value :=
| VNone
| VNum (q : Qc)
| VStr (s : string)
| VTuple (l : list Qc).

#[global] Instance value_eq_dec : EqDecision value.
Proof. solve_decision. Defined.

Definition value_to_sum (v : value) : unit + Qc + string + list Qc :=
  match v with
  | VNone => inl (inl (inl ()))
  | VNum q => inl (inl (inr q))
  | VStr s => inl (inr s)
  | VTuple l => inr l
  end.

Definition value_of_sum (s : unit + Qc + string + list Qc) : value :=
  match s with
  | inl (inl (inl _)) => VNone
  | inl (inl (inr q)) => VNum q
  | inl (inr s) => VStr s
  | inr l => VTuple l
  end.

#[global] Instance value_countable : Countable value.
Proof.
  refine (inj_countable' value_to_sum value_of_sum _).
  by intros [].
Defined.

(** A number given as a fraction.  The examples write [num 1 10] for the
    float [0.1]: all that matters of a number is which numbers it equals. *)
Definition num (a : Z) (b : positive) : value := VNum (Q2Qc (Qmake a b)).

(** ** Parameters, parameter groups, optimizers *)

(** An [nn.Parameter]: its identity and the [_optim] attribute, if set,
    which is a dict of hyperparameters by name. *)
Record param := Param { pid : nat; p_optim : option (dict value) }.

#[global] Instance param_eq_dec : EqDecision param.
Proof. solve_decision. Defined.

(** The values of a parameter group dict: the list under ["params"] and
    the hyperparameters. *)
Inductive entry :=
| Params (ps : list param)
| Hyper (v : value).

#[global] Instance entry_eq_dec : EqDecision entry.
Proof. solve_decision. Defined.

Inductive class := Class (name : string).

#[global] Instance class_eq_dec : EqDecision class.
Proof. solve_decision. Defined.

Record optimizer := Optimizer {
  o_type : class;
  o_defaults : dict value;
  param_groups : list (dict entry)
}.

(** ** Objects, heap and environment *)

Abbreviation loc := nat.

Inductive obj :=
| OVal (v : value)
| OType (c : class)
| ORef (l : loc)
| OOptimizer (o : optimizer).

Abbreviation heap := (gmap loc (dict obj)).

Record scheduler := Scheduler {
  s_type : class;
  s_kwargs : dict obj
}.

(** The state monad of heap operations. *)

Definition M (A : Type) : Type := heap → result A * heap.

#[global] Instance M_ret : MRet M := λ A a h, (Ok a, h).
#[global] Instance M_bind : MBind M := λ A B f m h,
  match m h with
  | (Ok a, h') => f a h'
  | (Err e, h') => (Err e, h')
  end.

Definition raise {A : Type} (e : exn) : M A := λ h, (Err e, h).

Definition lift {A : Type} (r : result A) : M A := λ h, (r, h).

Record env := Env {
  optim : gmap string obj;              (* torch.optim *)
  easyoptim : gmap string obj;          (* easytorch.easyoptim *)
  lr_scheduler : gmap string obj;       (* torch.optim.lr_scheduler *)
  easy_lr_scheduler : gmap string obj;  (* easytorch.easyoptim.easy_lr_scheduler *)
  (* [__init__] of an optimizer class, run on the heap: from the keyword
     arguments to the [defaults] it hands to [Optimizer.__init__], or the
     exception raised *)
  optim_init : class → dict obj → M (dict value);
  (* [__init__] of a scheduler class, run on the heap: accepts the keyword
     arguments or raises *)
  sched_init : class → dict obj → M ()
}.

(** ** Heap operations *)

(** The dict an object refers to; anything else is not subscriptable. *)
Definition deref (o : obj) : M (dict obj) := λ h,
  match o with
  | ORef l =>
      match h !! l with
      | Some d => (Ok d, h)
      | None => (Err TypeError, h)
      end
  | _ => (Err TypeError, h)
  end.

(** [o[k]] *)
Definition getitem (o : obj) (k : string) : M obj :=
  d ← deref o;
  match dict_get d k with
  | Some v => mret v
  | None => raise KeyError
  end.

(** [o[k] = v] *)
Definition setitem (o : obj) (k : string) (v : obj) : M () := λ h,
  match o with
  | ORef l =>
      match h !! l with
      | Some d => (Ok (), <[l := dict_set d k v]> h)
      | None => (Err TypeError, h)
      end
  | _ => (Err TypeError, h)
  end.

(** [o.copy()]: a new dict object with the same items. *)
Definition dict_copy (o : obj) : M obj := λ h,
  match o with
  | ORef l =>
      match h !! l with
      | Some d => let l' := fresh (dom h) in (Ok (ORef l'), <[l' := d]> h)
      | None => (Err AttributeError, h)
      end
  | _ => (Err AttributeError, h)
  end.

(** [isinstance(o, type)] *)
Definition is_type (o : obj) : bool :=
  match o with
  | OType _ => true
  | _ => false
  end.

(** [hasattr(module, name)] and [getattr(module, name)]; the name has to
    be a string. *)
Definition hasattr (m : gmap string obj) (name : obj) : M bool :=
  match name with
  | OVal (VStr s) => mret (bool_decide (is_Some (m !! s)))
  | _ => raise TypeError
  end.

Definition getattr (m : gmap string obj) (name : obj) : M obj :=
  match name with
  | OVal (VStr s) =>
      match m !! s with
      | Some o => mret o
      | None => raise AttributeError
      end
  | _ => raise TypeError
  end.

(** ** [sorted]

    [list.sort] as CPython runs it on a list of fewer than 64 elements
    (and so on the override sets of "a few dozen" parameters): the
    leading run is found by [count_run], reversed if it is strictly
    descending, and the other elements are added by binary insertion
    ([binarysort]).
    Only [<] is ever asked of the elements.  Longer lists are cut into
    such runs and merged; the properties proved below use of [sorted]
    only that it permutes its input, and its result on the short lists
    of the examples. *)

Section sorted.
Context {A : Type} (lt : A → A → bool).

(** How far the run goes on after [prev]. *)
Fixpoint run_tail (desc : bool) (prev : A) (l : list A) : nat :=
  match l with
  | [] => 0
  | x :: l' => if bool_decide (lt x prev = desc) then S (run_tail desc x l') else 0
  end.

Definition count_run (l : list A) : nat * bool :=
  match l with
  | [] => (0, false)
  | [_] => (1, false)
  | x :: y :: l' => let desc := lt y x in (2 + run_tail desc y l', desc)
  end.

(** The insertion point of [pivot] in [l[lo:hi]]: after the elements
    that [pivot] is not less than. *)
Fixpoint bisect (fuel : nat) (pivot : A) (l : list A) (lo hi : nat) : nat :=
  match fuel with
  | 0 => lo
  | S fuel' =>
      if bool_decide (lo < hi) then
        let p := lo + (hi - lo) / 2 in
        match l !! p with
        | Some x =>
            if lt pivot x then bisect fuel' pivot l lo p
            else bisect fuel' pivot l (p + 1) hi
        | None => lo
        end
      else lo
  end.

Definition binary_insert (run : list A) (pivot : A) : list A :=
  let k := bisect (length run) pivot run 0 (length run) in
  take k run ++ pivot :: drop k run.

Definition binarysort (run rest : list A) : list A :=
  foldl binary_insert run rest.

Definition sorted (l : list A) : list A :=
  let '(n, desc) := count_run l in
  let run := take n l in
  binarysort (if desc then reverse run else run) (drop n l).

End sorted.

(** [list(dict.fromkeys(l))]: the elements of [l] without repetition, each
    at the place of its first occurrence. *)
Definition fromkeys_step {A : Type} `{EqDecision A} (keys : list A) (x : A) : list A :=
  if decide (x ∈ keys) then keys else keys ++ [x].

Definition fromkeys {A : Type} `{EqDecision A} (l : list A) : list A :=
  foldl fromkeys_step [] l.

(** ** The override sets of a model *)

(** [frozenset(hp.items())] *)
Definition frozenset_items (hp : dict value) : gset (string * value) :=
  list_to_set hp.

(** [s < t] on frozensets: proper subset. *)
Definition frozenset_lt (s t : gset (string * value)) : bool :=
  bool_decide (s ⊂ t).

(** [hasattr(p, "_optim")] *)
Definition has_optim (p : param) : Prop := is_Some (p_optim p).

#[global] Instance has_optim_dec p : Decision (has_optim p).
Proof. unfold has_optim. apply _. Defined.

(** Lines 73 and 76: the distinct override sets, sorted. *)
Definition override_sets (all_parameters : list param) : list (gset (string * value)) :=
  let hps := omap p_optim all_parameters in
  sorted frozenset_lt (fromkeys (frozenset_items <$> hps)).

(** Lines 74 to 77: [dict(s)] for each of them. *)
Definition special_hps (all_parameters : list param) : list (dict value) :=
  (λ s, dict_update [] (elements s)) <$> override_sets all_parameters.

(** [getattr(p, "_optim", None) == hp] *)
Definition optim_eq (p : param) (hp : dict value) : bool :=
  match p_optim p with
  | Some d => dict_eqb d hp
  | None => false
  end.

(** ** [torch.optim.Optimizer] *)

(** The parameters of a group. *)
Definition group_params (g : dict entry) : list param :=
  match dict_get g "params" with
  | Some (Params ps) => ps
  | _ => []
  end.

(** [list(params)] in [add_param_group], with its check that every
    element is a tensor: of the hyperparameter values only the empty
    sequences pass. *)
Definition as_tensors (e : entry) : result (list param) :=
  match e with
  | Params ps => Ok ps
  | Hyper (VTuple []) => Ok []
  | Hyper (VStr EmptyString) => Ok []
  | Hyper _ => Err TypeError
  end.

(** [for name, default in defaults.items(): g.setdefault(name, default)] *)
Definition fill_defaults (defaults : dict value) (g : dict entry) : dict entry :=
  foldl (λ g kv, dict_setdefault g kv.1 (Hyper kv.2)) g defaults.

(** [optimizer.add_param_group(param_group)]: the list under ["params"] is
    normalised, the defaults fill in the missing hyperparameters, a
    parameter that is already in a group is refused, and the group is
    appended. *)
Definition add_param_group (o : optimizer) (param_group : dict entry) : result optimizer :=
  match dict_get param_group "params" with
  | None => Err KeyError
  | Some e =>
      ps ← as_tensors e;
      let g := dict_set param_group "params" (Params ps) in
      let g := fill_defaults (o_defaults o) g in
      let seen := pid <$> (param_groups o ≫= group_params) in
      if existsb (λ p, bool_decide (pid p ∈ seen)) ps then Err ValueError
      else Ok (Optimizer (o_type o) (o_defaults o) (param_groups o ++ [g]))
  end.

(** [Optimizer.__init__(params, defaults)] for a list of tensors. *)
Definition Optimizer_init (c : class) (params : list param) (defaults : dict value) : result optimizer :=
  match params with
  | [] => Err ValueError
  | _ => add_param_group (Optimizer c defaults []) [("params", Params params)]
  end.

(** [optim_type] called with [params] and the keyword arguments [kwargs].
    A value, a dict and an optimizer cannot be called. *)
Definition new_optimizer (E : env) (optim_type : obj) (params : list param) (kwargs : dict obj) : M optimizer :=
  match optim_type with
  | OType c => defaults ← optim_init E c kwargs; lift (Optimizer_init c params defaults)
  | OVal _ | ORef _ | OOptimizer _ => raise TypeError
  end.

(** [scheduler_type] called with the keyword arguments [kwargs]. *)
Definition new_scheduler (E : env) (scheduler_type : obj) (kwargs : dict obj) : M scheduler :=
  match scheduler_type with
  | OType c => _ ← sched_init E c kwargs; mret (Scheduler c kwargs)
  | OVal _ | ORef _ | OOptimizer _ => raise TypeError
  end.

(** ** The type named by a configuration

    Lines 52 to 58 of [build_optim] and, with the scheduler modules, lines
    132 to 138 of [build_lr_scheduler]: the same statement over a
    built-in and a custom module.  Every [cfg['TYPE']] is a read of its
    own, as in the source. *)
Definition lookup_type (builtin custom : gmap string obj) (cfg : obj) : M obj :=
  ty ← getitem cfg "TYPE";
  if is_type ty then getitem cfg "TYPE"
  else
    name ← getitem cfg "TYPE";
    found ← hasattr builtin name;
    if found : bool then
      name ← getitem cfg "TYPE"; getattr builtin name
    else
      name ← getitem cfg "TYPE"; getattr custom name.

(** ** [build_optim] *)

(** Lines 79 to 82, one turn of the loop: [params], the dict display
    with ["params"] first and the items of [hp] after it, and the call. *)
Definition special_group (all_parameters : list param) (hp : dict value) : dict entry :=
  let params := filter (λ p, optim_eq p hp) all_parameters in
  dict_update [("params", Params params)] (prod_map id Hyper <$> hp).

Definition add_special_group (all_parameters : list param) (o : optimizer) (hp : dict value) : result optimizer :=
  add_param_group o (special_group all_parameters hp).

(** Lines 78 to 82: [for hp in hps]. *)
Fixpoint add_special_groups (all_parameters : list param) (o : optimizer) (hps : list (dict value)) : result optimizer :=
  match hps with
  | [] => Ok o
  | hp :: hps' =>
      o' ← add_special_group all_parameters o hp;
      add_special_groups all_parameters o' hps'
  end.

(** [model] stands for [list(model.parameters())].  Lines 84 to 91 print
    a summary of the groups; [build_optim_printing] below adds them. *)
Definition build_optim (E : env) (optim_cfg : obj) (model : list param) : M optimizer :=
  optim_type ← lookup_type (optim E) (easyoptim E) optim_cfg;
  param ← getitem optim_cfg "PARAM";
  optim_param ← dict_copy param;
  let all_parameters := model in
  let params := filter (λ p, ¬ has_optim p) all_parameters in
  kwargs ← deref optim_param;
  optimizer ← new_optimizer E optim_type params kwargs;
  let hps := special_hps all_parameters in
  lift (add_special_groups all_parameters optimizer hps).

(** ** [build_lr_scheduler] *)

Definition build_lr_scheduler (E : env) (lr_scheduler_cfg : obj) (optimizer : optimizer) : M scheduler :=
  ty ← getitem lr_scheduler_cfg "TYPE";
  _ ← setitem lr_scheduler_cfg "TYPE" ty;
  scheduler_type ← lookup_type (lr_scheduler E) (easy_lr_scheduler E) lr_scheduler_cfg;
  param ← getitem lr_scheduler_cfg "PARAM";
  scheduler_param ← dict_copy param;
  _ ← setitem scheduler_param "optimizer" (OOptimizer optimizer);
  kwargs ← deref scheduler_param;
  new_scheduler E scheduler_type kwargs.

(** ** The summary printed by [build_optim]

    Lines 85 to 91.  [show] stands for the text that formatting gives an
    entry of a group; [None] is shown as ["None"]. *)

Section summary.
Context (show : entry → string).

Definition show_option (v : option entry) : string :=
  match v with
  | Some e => show e
  | None => "None"
  end.

(** Line 85: the keys of all overrides, each once, in ascending order. *)
Definition summary_keys (hps : list (dict value)) : list string :=
  sorted String.ltb (elements (list_to_set (C := gset string) (hps ≫= λ hp, hp.*1))).

(** [len(g['params'])] *)
Definition len_params (g : dict entry) : result nat :=
  match dict_get g "params" with
  | Some (Params ps) => Ok (length ps)
  | Some (Hyper (VStr s)) => Ok (String.length s)
  | Some (Hyper (VTuple l)) => Ok (length l)
  | Some (Hyper _) => Err TypeError
  | None => Err KeyError
  end.

(** Lines 87 to 91: the line of group [i]. *)
Definition summary_line (keys : list string) (i : nat) (g : dict entry) : result string :=
  let group_hps : list (string * option entry) :=
    dict_update [] ((λ k, (k, dict_get g k)) <$> keys) in
  n ← len_params g;
  Ok (String.concat " | "
        (["Optimizer group " +:+ pretty i; pretty n +:+ " tensors"]
         ++ ((λ kv, kv.1 +:+ " " +:+ show_option kv.2) <$> group_hps))).

(** Line 86: [for i, g in enumerate(optimizer.param_groups)], from [i]. *)
Fixpoint summary_lines (keys : list string) (i : nat) (groups : list (dict entry)) : result (list string) :=
  match groups with
  | [] => Ok []
  | g :: groups' =>
      line ← summary_line keys i g;
      lines ← summary_lines keys (S i) groups';
      Ok (line :: lines)
  end.

(** [build_optim] with the lines it prints, lines 52 to 93. *)
Definition build_optim_printing (E : env) (optim_cfg : obj) (model : list param)
    (h : gmap nat (dict obj)) : result (optimizer * list string) * gmap nat (dict obj) :=
  match build_optim E optim_cfg model h with
  | (Ok optimizer, h') =>
      let hps := special_hps model in
      let keys := summary_keys hps in
      match summary_lines keys 0 (param_groups optimizer) with
      | Ok lines => (Ok (optimizer, lines), h')
      | Err e => (Err e, h')
      end
  | (Err e, h') => (Err e, h')
  end.

End summary.

(** * Notions used in the statements *)

(** Every dict attached to a parameter of the model has unique keys. *)
Definition optim_wf (p : param) : Prop :=
  match p_optim p with
  | Some d => dict_wf d
  | None => True
  end.

#[global] Instance optim_wf_dec p : Decision (optim_wf p).
Proof. unfold optim_wf, dict_wf. destruct (p_optim p); apply _. Defined.

Definition model_wf (model : list param) : Prop := Forall optim_wf model.

(** The override set of a parameter, if it has one. *)
Definition override_of (p : param) : option (gset (string * value)) :=
  frozenset_items <$> p_optim p.

(** The lookup in the words of the specification: a class is used as it
    is; a name is looked up in the built-in module first, and in the
    custom module only if the built-in module does not have it. *)
Inductive resolves (builtin custom : gmap string obj) : obj → obj → Prop :=
| resolves_type c :
    resolves builtin custom (OType c) (OType c)
| resolves_builtin name ty :
    builtin !! name = Some ty →
    resolves builtin custom (OVal (VStr name)) ty
| resolves_custom name ty :
    builtin !! name = None → custom !! name = Some ty →
    resolves builtin custom (OVal (VStr name)) ty.

(** The optimizer built from the resolved type, lines 64 to 82. *)
Definition grouped_optimizer (E : env) (ty : obj) (kwargs : dict obj) (model : list param) : M optimizer :=
  o ← new_optimizer E ty (filter (λ p, ¬ has_optim p) model) kwargs;
  lift (add_special_groups model o (special_hps model)).

(** What [add_param_group] stores for the dict it is given. *)
Definition stored_group (defaults : dict value) (raw g : dict entry) : Prop :=
  ∃ e ps, dict_get raw "params" = Some e ∧ as_tensors e = Ok ps
    ∧ g = fill_defaults defaults (dict_set raw "params" (Params ps)).

(** Group 0: the parameters without [_optim]. *)
Definition default_group (defaults : dict value) (model : list param) : dict entry :=
  fill_defaults defaults [("params", Params (filter (λ p, ¬ has_optim p) model))].

(** Parameter [p] is in group [i] of the optimizer. *)
Definition in_group (opt : optimizer) (i : nat) (p : param) : Prop :=
  ∃ g, param_groups opt !! i = Some g ∧ p ∈ group_params g.

(** No override dict binds the key under which a group keeps its
    parameter list. *)
Definition optim_key_free (p : param) : Prop :=
  match p_optim p with
  | Some d => dict_get d "params" = None
  | None => True
  end.

#[global] Instance optim_key_free_dec p : Decision (optim_key_free p).
Proof. unfold optim_key_free. destruct (p_optim p); apply _. Defined.

Definition no_params_key (model : list param) : Prop := Forall optim_key_free model.

(** Group [g] is the group of the override set [s]: it holds the
    parameters that carry [s], and the items of [s] are hyperparameters
    of it. *)
Definition group_of_override (model : list param)
    (s : gset (string * value)) (g : dict entry) : Prop :=
  group_params g = filter (λ p, override_of p = Some s) model
  ∧ ∀ k v, (k, v) ∈ s → dict_get g k = Some (Hyper v).

(** The hyperparameters of [g] that [s] does not set are the defaults. *)
Definition rest_is_default (opt : optimizer)
    (s : gset (string * value)) (g : dict entry) : Prop :=
  ∀ k, k ≠ "params" → (∀ v, (k, v) ∉ s) →
    dict_get g k = Hyper <$> dict_get (o_defaults opt) k.

(** The additional groups are, one for one, the groups of the distinct
    override sets of the model. *)
Definition groups_follow_overrides (model : list param) (opt : optimizer) : Prop :=
  ∃ g0 gs ss,
    param_groups opt = g0 :: gs
    ∧ NoDup ss
    ∧ (∀ s, s ∈ ss ↔ ∃ p, p ∈ model ∧ override_of p = Some s)
    ∧ Forall2 (group_of_override model) ss gs.

(** Parameters with equal override sets are in one group; parameters with
    different override sets are in two groups, neither in the group of
    the other. *)
Definition grouped_by_override (model : list param) (opt : optimizer) : Prop :=
  ∀ p q dp dq,
    p ∈ model → q ∈ model → p_optim p = Some dp → p_optim q = Some dq →
    (frozenset_items dp = frozenset_items dq →
       ∃ i, in_group opt i p ∧ in_group opt i q)
    ∧ (frozenset_items dp ≠ frozenset_items dq →
       ∃ i j, i ≠ j ∧ in_group opt i p ∧ in_group opt j q
         ∧ ¬ in_group opt j p ∧ ¬ in_group opt i q).

(** Every parameter of the model is in exactly one group: group 0 without
    an override, and with an override a later group, which is the group
    of the override set of its dict. *)
Definition groups_partition (model : list param) (opt : optimizer) : Prop :=
  ∀ p, p ∈ model →
    ∃ i, in_group opt i p
      ∧ (∀ j, in_group opt j p → j = i)
      ∧ match p_optim p with
        | None => i = 0
        | Some d =>
            ∃ g, 0 < i ∧ param_groups opt !! i = Some g
              ∧ group_of_override model (frozenset_items d) g
        end.

(** The objects that cannot be called: values ([None], numbers, strings,
    tuples), dicts and optimizers. *)
Definition not_callable (o : obj) : Prop :=
  match o with
  | OVal _ | ORef _ | OOptimizer _ => True
  | OType _ => False
  end.

(** The dicts that are values of the entries of a dict. *)
Definition refs (d : dict obj) : list loc :=
  omap (λ kv, match kv.2 with ORef l => Some l | _ => None end) d.

(** The dicts that are values of the [PARAM] of a configuration. *)
Definition param_refs (h : heap) (cfg : obj) : list loc :=
  match cfg with
  | ORef l =>
      match h !! l ≫= λ d, dict_get d "PARAM" with
      | Some (ORef lp) => from_option refs [] (h !! lp)
      | _ => []
      end
  | _ => []
  end.

(** The constructors of the classes write only to dicts that are among
    their keyword arguments. *)
Definition writes_arguments_only (E : env) : Prop :=
  ∀ c kwargs h l, l ∉ refs kwargs →
    (optim_init E c kwargs h).2 !! l = h !! l
    ∧ (sched_init E c kwargs h).2 !! l = h !! l.

(** The distinct override sets of a model. *)
Definition distinct_overrides (model : list param) : gset (gset (string * value)) :=
  list_to_set (omap override_of model).

(** [x <= y] for a [<] given as a test: not [y < x]. *)
Definition not_gt {A : Type} (lt : A → A → bool) (x y : A) : Prop := lt y x = false.

(** * Examples *)

Definition SGD : class := Class "torch.optim.SGD".
Definition Adam : class := Class "torch.optim.Adam".
Definition EasyAdam : class := Class "easytorch.easyoptim.Adam".
Definition Lamb : class := Class "easytorch.easyoptim.Lamb".
Definition StepLR : class := Class "torch.optim.lr_scheduler.StepLR".
Definition CosineWarmup : class := Class "easytorch.easyoptim.easy_lr_scheduler.CosineWarmup".

(** The keyword arguments that are plain values. *)
Definition value_kwargs (kwargs : dict obj) : dict value :=
  omap (λ kv, match kv.2 with OVal v => Some (kv.1, v) | _ => None end) kwargs.

(** Optimizer classes take their keyword arguments as defaults; scheduler
    classes ask for an optimizer. *)
Definition example_env : env := {|
  optim := <["SGD" := OType SGD]> (<["Adam" := OType Adam]> ∅);
  easyoptim := <["Adam" := OType EasyAdam]> (<["Lamb" := OType Lamb]> ∅);
  lr_scheduler := <["StepLR" := OType StepLR]> ∅;
  easy_lr_scheduler := <["CosineWarmup" := OType CosineWarmup]> ∅;
  optim_init := λ c kwargs, mret (value_kwargs kwargs);
  sched_init := λ c kwargs,
    match dict_get kwargs "optimizer" with
    | Some (OOptimizer _) => mret ()
    | _ => raise TypeError
    end
|}.

(** Configurations with their [PARAM] dicts: an optimizer at [0], a
    scheduler at [2], and at [4] a name that no module has. *)
Definition example_heap : heap :=
  <[0 := [("TYPE", OVal (VStr "SGD")); ("PARAM", ORef 1)]]>
  (<[1 := [("lr", OVal (num 1 100)); ("momentum", OVal (num 9 10))]]>
  (<[2 := [("TYPE", OVal (VStr "StepLR")); ("PARAM", ORef 3)]]>
  (<[3 := [("step_size", OVal (num 30 1))]]>
  (<[4 := [("TYPE", OVal (VStr "RMSprop")); ("PARAM", ORef 1)]]> ∅)))).

(** A model: two plain parameters, two with [{'lr': 0.1}] built apart,
    one with [{'lr': 0.2}], two with the same two entries in different
    orders, and one with the empty dict. *)
Definition w1 : param := Param 1 None.
Definition w2 : param := Param 2 None.
Definition w3 : param := Param 3 (Some [("lr", num 1 10)]).
Definition w4 : param := Param 4 (Some [("lr", num 1 10)]).
Definition w5 : param := Param 5 (Some [("lr", num 1 5)]).
Definition w6 : param := Param 6 (Some [("lr", num 1 10); ("weight_decay", num 0 1)]).
Definition w7 : param := Param 7 (Some [("weight_decay", num 0 1); ("lr", num 1 10)]).
Definition w8 : param := Param 8 (Some []).

Definition example_model : list param := [w1; w2; w3; w4; w5; w6; w7; w8].

Definition no_optimizer : optimizer := Optimizer (Class "") [] [].

Definition example_optimizer : optimizer :=
  Eval vm_compute in
  match (build_optim example_env (ORef 0) example_model example_heap).1 with
  | Ok o => o
  | Err _ => no_optimizer
  end.

(** The identities of the parameters of each group of a run. *)
Definition group_pids (r : result optimizer) : list (list nat) :=
  match r with
  | Ok o => (λ g, pid <$> group_params g) <$> param_groups o
  | Err _ => []
  end.

(** The class of the optimizer of a run. *)
Definition run_type (r : result optimizer) : option class :=
  match r with
  | Ok o => Some (o_type o)
  | Err _ => None
  end.

(** Two parameters whose [_optim] is [{'params': ()}], next to a plain
    one.  In the dict display of line 81 the override comes after the
    parameter list and replaces it; [add_param_group] accepts the empty
    tuple as an empty list of tensors. *)
Definition r1 : param := Param 11 (Some [("params", VTuple [])]).
Definition r2 : param := Param 12 (Some [("params", VTuple [])]).

Definition reserved_model : list param := [w1; r1; r2].

Definition reserved_optimizer : optimizer :=
  Eval vm_compute in
  match (build_optim example_env (ORef 0) reserved_model example_heap).1 with
  | Ok o => o
  | Err _ => no_optimizer
  end.

(** Configurations that lack something: no [TYPE] at [0], no [PARAM] at
    [2], [None] for [TYPE] at [3], at [4] a class with a [PARAM] that
    the classes of [strict_env] refuse, and at [6] a name that the modules
    have for something that is no class. *)
Definition malformed_heap : heap :=
  <[0 := [("PARAM", ORef 1)]]>
  (<[1 := [("lr", OVal (num 1 100))]]>
  (<[2 := [("TYPE", OType SGD)]]>
  (<[3 := [("TYPE", OVal VNone); ("PARAM", ORef 1)]]>
  (<[4 := [("TYPE", OType SGD); ("PARAM", ORef 5)]]>
  (<[5 := [("momentum", OVal (num 9 10))]]>
  (<[6 := [("TYPE", OVal (VStr "__name__")); ("PARAM", ORef 1)]]> ∅)))))).

(** The modules with their [__name__], and classes that are particular
    about their keyword arguments: the optimizer classes do not take
    [momentum], the scheduler classes want [gamma]. *)
Definition strict_env : env := {|
  optim := <["__name__" := OVal (VStr "torch.optim")]> (optim example_env);
  easyoptim := easyoptim example_env;
  lr_scheduler :=
    <["__name__" := OVal (VStr "torch.optim.lr_scheduler")]> (lr_scheduler example_env);
  easy_lr_scheduler := easy_lr_scheduler example_env;
  optim_init := λ c kwargs,
    match dict_get kwargs "momentum" with
    | Some _ => raise TypeError
    | None => mret (value_kwargs kwargs)
    end;
  sched_init := λ c kwargs,
    match dict_get kwargs "gamma" with
    | Some _ => mret ()
    | None => raise TypeError
    end
|}.

(** Configurations that name classes of the custom modules: [Lamb] at
    [0] and [CosineWarmup] at [2], which the built-in modules do not
    have, and at [4] [Adam], which both optimizer modules have. *)
Definition custom_heap : heap :=
  <[0 := [("TYPE", OVal (VStr "Lamb")); ("PARAM", ORef 1)]]>
  (<[1 := [("lr", OVal (num 1 100))]]>
  (<[2 := [("TYPE", OVal (VStr "CosineWarmup")); ("PARAM", ORef 3)]]>
  (<[3 := [("warmup", OVal (num 5 1))]]>
  (<[4 := [("TYPE", OVal (VStr "Adam")); ("PARAM", ORef 1)]]> ∅)))).

(** The optimizer of the configuration that names [Lamb]. *)
Definition lamb_optimizer : optimizer :=
  Eval vm_compute in
  match (build_optim example_env (ORef 0) example_model custom_heap).1 with
  | Ok o => o
  | Err _ => no_optimizer
  end.

(** An optimizer class and a scheduler class whose constructors take a
    dict [options] and note in it that they have seen it:
    [options['seen'] = None]. *)
Definition NotingSGD : class := Class "NotingSGD".
Definition NotingLR : class := Class "NotingLR".

Definition noting_init (kwargs : dict obj) : M () :=
  match dict_get kwargs "options" with
  | Some options => setitem options "seen" (OVal VNone)
  | None => raise TypeError
  end.

Definition noting_env : env := {|
  optim := optim example_env;
  easyoptim := easyoptim example_env;
  lr_scheduler := lr_scheduler example_env;
  easy_lr_scheduler := easy_lr_scheduler example_env;
  optim_init := λ c kwargs, _ ← noting_init kwargs; mret (value_kwargs kwargs);
  sched_init := λ c kwargs, noting_init kwargs
|}.

(** An optimizer configuration at [0] whose [PARAM], at [1], holds a
    dict of options, at [2], and a scheduler configuration at [3] whose
    [PARAM], at [4], holds a dict of options, at [5]. *)
Definition nested_heap : heap :=
  <[0 := [("TYPE", OType NotingSGD); ("PARAM", ORef 1)]]>
  (<[1 := [("lr", OVal (num 1 100)); ("options", ORef 2)]]>
  (<[2 := [("nesterov", OVal (num 1 1))]]>
  (<[3 := [("TYPE", OType NotingLR); ("PARAM", ORef 4)]]>
  (<[4 := [("step_size", OVal (num 30 1)); ("options", ORef 5)]]>
  (<[5 := [("verbose", OVal (num 0 1))]]> ∅))))).

Definition noting_optimizer : optimizer :=
  Eval vm_compute in
  match (build_optim noting_env (ORef 0) example_model nested_heap).1 with
  | Ok o => o
  | Err _ => no_optimizer
  end.

(** A way to show entries that tells lists from values. *)
Definition show_kind (e : entry) : string :=
  match e with
  | Params _ => "<tensors>"
  | Hyper _ => "<value>"
  end.

(** * Properties *)


(** ** Dicts *)

Section dict_lemmas.
Context {A : Type}.
Implicit Types (d : dict A) (k : string) (v : A).

Lemma dict_get_Some_elem_of d k v : dict_get d k = Some v → (k, v) ∈ d.
Proof.
  induction d as [|[k' v'] d IH]; simpl; [done|].
  case_decide; [intros [= ->]; subst; left | intros; right; auto].
Qed.

Lemma dict_get_None d k : dict_get d k = None ↔ k ∉ d.*1.
Proof.
  induction d as [|[k' v'] d IH]; simpl.
  - split; [intros _; apply not_elem_of_nil | done].
  - rewrite not_elem_of_cons. case_decide as Hk.
    + split; [done | by intros [? _]].
    + rewrite IH. split; [by split | by intros [_ ?]].
Qed.

Lemma dict_get_elem_of d k v : dict_wf d → (k, v) ∈ d → dict_get d k = Some v.
Proof.
  unfold dict_wf. induction d as [|[k' v'] d IH]; simpl.
  - by intros _ ?%elem_of_nil.
  - intros [Hk Hd]%NoDup_cons [[= -> ->]|Hin]%elem_of_cons.
    + by rewrite decide_True.
    + rewrite decide_False; [by apply IH|].
      intros ->. apply Hk. apply list_elem_of_fmap. by exists (k, v).
Qed.

Lemma dict_wf_NoDup d : dict_wf d → NoDup d.
Proof. apply NoDup_fmap_1. Qed.

Lemma dict_get_app d d' k :
  dict_get (d ++ d') k = from_option Some (dict_get d' k) (dict_get d k).
Proof.
  induction d as [|[k0 v0] d IH]; simpl; [done|].
  by destruct (decide (k0 = k)).
Qed.

Lemma dict_get_set d k v k' :
  dict_get (dict_set d k v) k' = if decide (k = k') then Some v else dict_get d k'.
Proof.
  induction d as [|[k0 v0] d IH]; simpl.
  - done.
  - destruct (decide (k0 = k)) as [->|Hne]; simpl.
    + destruct (decide (k = k')); done.
    + rewrite IH. destruct (decide (k0 = k')) as [->|]; [|done].
      by rewrite decide_False.
Qed.

Lemma dict_set_id d k v : dict_get d k = Some v → dict_set d k v = d.
Proof.
  induction d as [|[k0 v0] d IH]; simpl; [done|].
  case_decide; [by intros [= ->]; subst | intros; f_equal; auto].
Qed.

Lemma dict_set_fresh d k v : k ∉ d.*1 → dict_set d k v = d ++ [(k, v)].
Proof.
  induction d as [|[k0 v0] d IH]; simpl; [done|].
  rewrite not_elem_of_cons. intros [Hne Hk].
  rewrite decide_False by done. by rewrite IH.
Qed.

Lemma dict_update_fresh d (l : list (string * A)) :
  NoDup (d ++ l).*1 → dict_update d l = d ++ l.
Proof.
  revert d. induction l as [|[k v] l IH]; intros d Hnd; simpl.
  - by rewrite app_nil_r.
  - rewrite dict_set_fresh.
    + rewrite IH; rewrite <- app_assoc; done.
    + rewrite fmap_app in Hnd. apply NoDup_app in Hnd as (_ & Hd & _).
      intros Hk. apply (Hd k Hk). simpl. left.
Qed.

(** [dict(items)] of items with distinct keys keeps them as they come. *)
Lemma dict_update_nil (l : list (string * A)) : NoDup l.*1 → dict_update [] l = l.
Proof. intros. by apply (dict_update_fresh []). Qed.

Lemma dict_get_update d (l : list (string * A)) k :
  NoDup l.*1 →
  dict_get (dict_update d l) k = from_option Some (dict_get d k) (dict_get l k).
Proof.
  revert d. induction l as [|[k0 v0] l IH]; intros d Hnd; simpl; [done|].
  apply NoDup_cons in Hnd as [Hk0 Hnd].
  rewrite IH by done. destruct (dict_get l k) as [v|] eqn:Hl; simpl.
  - case_decide; [|done]. subst.
    apply dict_get_Some_elem_of in Hl. exfalso. apply Hk0.
    apply list_elem_of_fmap. by exists (k, v).
  - rewrite dict_get_set. by destruct (decide (k0 = k)).
Qed.

End dict_lemmas.

Lemma dict_get_fill_defaults defaults g k :
  dict_get (fill_defaults defaults g) k
  = from_option Some (Hyper <$> dict_get defaults k) (dict_get g k).
Proof.
  unfold fill_defaults. revert g.
  induction defaults as [|[k0 v0] defaults IH]; intros g; simpl.
  - by destruct (dict_get g k).
  - rewrite IH. unfold dict_setdefault.
    destruct (dict_get g k0) as [e0|] eqn:Hg0.
    + destruct (dict_get g k) eqn:Hg; simpl; [done|].
      rewrite decide_False; [done | congruence].
    + rewrite dict_get_app. simpl.
      destruct (dict_get g k) eqn:Hg; simpl; [done|].
      by destruct (decide (k0 = k)).
Qed.

(** Dict equality is equality of the sets of items. *)
Lemma dict_eqb_spec (a b : dict value) :
  dict_wf a → dict_wf b →
  dict_eqb a b = true ↔ frozenset_items a = frozenset_items b.
Proof.
  intros Ha Hb. unfold dict_eqb, frozenset_items.
  rewrite andb_true_iff, bool_decide_eq_true, forallb_forall.
  split.
  - intros [Hlen Hall].
    assert (Hsub : a ⊆ b).
    { intros [k v] Hin. apply list_elem_of_In, Hall in Hin.
      apply bool_decide_eq_true in Hin. by apply dict_get_Some_elem_of. }
    assert (Hperm : a ≡ₚ b).
    { apply submseteq_length_Permutation; [|lia].
      apply NoDup_submseteq; [by apply dict_wf_NoDup | done]. }
    by rewrite Hperm.
  - intros Heq.
    assert (Hperm : a ≡ₚ b).
    { apply NoDup_Permutation; [by apply dict_wf_NoDup..|].
      intros x. by rewrite <- !(elem_of_list_to_set (C := gset _)), Heq. }
    split; [by rewrite Hperm|].
    intros [k v] Hin. apply bool_decide_eq_true. simpl.
    apply dict_get_elem_of; [done|]. rewrite <- Hperm. by apply list_elem_of_In.
Qed.

(** ** [fromkeys] and [sorted] *)

Section fromkeys_lemmas.
Context {A : Type} `{EqDecision A}.
Implicit Types (l keys : list A).

Lemma fromkeys_from_elem_of keys l x :
  x ∈ foldl fromkeys_step keys l ↔ x ∈ keys ∨ x ∈ l.
Proof.
  revert keys. induction l as [|y l IH]; intros keys; simpl.
  - rewrite elem_of_nil. tauto.
  - rewrite IH, elem_of_cons. unfold fromkeys_step. case_decide as Hy.
    + split; [tauto|]. intros [?|[->|?]]; auto.
    + rewrite elem_of_app, list_elem_of_singleton. tauto.
Qed.

Lemma fromkeys_from_NoDup keys l :
  NoDup keys → NoDup (foldl fromkeys_step keys l).
Proof.
  revert keys. induction l as [|y l IH]; intros keys Hnd; simpl; [done|].
  apply IH. unfold fromkeys_step. case_decide as Hy; [done|].
  apply NoDup_app. split_and!; [done| |apply NoDup_singleton].
  intros x Hx ->%list_elem_of_singleton. done.
Qed.

Lemma elem_of_fromkeys l x : x ∈ fromkeys l ↔ x ∈ l.
Proof.
  unfold fromkeys. rewrite fromkeys_from_elem_of, elem_of_nil. tauto.
Qed.

Lemma NoDup_fromkeys l : NoDup (fromkeys l).
Proof. unfold fromkeys. apply fromkeys_from_NoDup, NoDup_nil_2. Qed.

End fromkeys_lemmas.

Section sorted_lemmas.
Context {A : Type} (lt : A → A → bool).
Implicit Types (l run rest : list A).

(** The fuel of [bisect] never runs out: the interval shrinks at every
    turn, so any fuel that covers it gives the same result. *)
Lemma bisect_fuel fuel fuel' pivot (l : list A) lo hi :
  (hi - lo ≤ fuel)%nat → (hi - lo ≤ fuel')%nat →
  bisect lt fuel pivot l lo hi = bisect lt fuel' pivot l lo hi.
Proof.
  revert fuel' lo hi.
  induction fuel as [|fuel IH]; intros fuel' lo hi Hf Hf'.
  - destruct fuel' as [|fuel']; cbn [bisect]; [done|].
    by rewrite bool_decide_eq_false_2 by lia.
  - destruct fuel' as [|fuel']; cbn [bisect].
    + by rewrite bool_decide_eq_false_2 by lia.
    + case_bool_decide as Hlt; [|done].
      assert (Hhalf : ((hi - lo) / 2 < hi - lo)%nat) by (apply Nat.div_lt; lia).
      destruct (l !! (lo + (hi - lo) / 2)%nat) as [x|]; [|done].
      destruct (lt pivot x); apply IH; lia.
Qed.

Lemma binary_insert_Permutation run pivot :
  binary_insert lt run pivot ≡ₚ pivot :: run.
Proof.
  unfold binary_insert. rewrite <- Permutation_middle. by rewrite take_drop.
Qed.

Lemma binarysort_Permutation run rest : binarysort lt run rest ≡ₚ run ++ rest.
Proof.
  unfold binarysort. revert run.
  induction rest as [|x rest IH]; intros run; simpl.
  - by rewrite app_nil_r.
  - rewrite IH, binary_insert_Permutation. by rewrite <- Permutation_middle.
Qed.

(** Whatever [<] is, [sorted] permutes its input. *)
Lemma sorted_Permutation l : sorted lt l ≡ₚ l.
Proof.
  unfold sorted. destruct (count_run lt l) as [n desc].
  rewrite binarysort_Permutation.
  destruct desc; [rewrite reverse_Permutation|]; by rewrite take_drop.
Qed.

End sorted_lemmas.

(** ** The override sets *)

Lemma model_wf_elem model p d :
  model_wf model → p ∈ model → p_optim p = Some d → dict_wf d.
Proof.
  unfold model_wf. rewrite Forall_forall. intros Hwf Hp Hd.
  specialize (Hwf p Hp). unfold optim_wf in Hwf. by rewrite Hd in Hwf.
Qed.

Lemma override_sets_fromkeys model :
  override_sets model ≡ₚ fromkeys (frozenset_items <$> omap p_optim model).
Proof. apply sorted_Permutation. Qed.

Lemma NoDup_override_sets model : NoDup (override_sets model).
Proof. rewrite override_sets_fromkeys. apply NoDup_fromkeys. Qed.

Lemma elem_of_override_sets model s :
  s ∈ override_sets model ↔ ∃ p, p ∈ model ∧ override_of p = Some s.
Proof.
  rewrite override_sets_fromkeys, elem_of_fromkeys, list_elem_of_fmap.
  unfold override_of. split.
  - intros (d & -> & (p & Hp & Hd)%list_elem_of_omap).
    exists p. by rewrite Hd.
  - intros (p & Hp & Hs). destruct (p_optim p) as [d|] eqn:Hd; [|done].
    injection Hs as <-. exists d. split; [done|].
    apply list_elem_of_omap. by exists p.
Qed.

(** X13. As a set, the override sets do not depend on the order in which the
    parameters are listed.  As a sequence they do: see the last section. *)
Lemma override_sets_Permutation model model' :
  model ≡ₚ model' → override_sets model ≡ₚ override_sets model'.
Proof.
  intros Hperm. apply NoDup_Permutation; [apply NoDup_override_sets..|].
  intros s. rewrite !elem_of_override_sets.
  by setoid_rewrite Hperm.
Qed.

Lemma override_sets_Permutation_witness :
  override_sets example_model ≡ₚ override_sets (reverse example_model).
Proof.
  apply override_sets_Permutation.
  apply (bool_decide_unpack _). vm_compute. exact I.
Defined.

(** [dict(s)] of an override set of the model. *)
Lemma special_hp_spec model s :
  model_wf model → s ∈ override_sets model →
  let hp := dict_update [] (elements s) in
  hp = elements s ∧ dict_wf hp ∧ frozenset_items hp = s.
Proof.
  intros Hwf (p & Hp & Hs)%elem_of_override_sets. simpl.
  unfold override_of in Hs.
  destruct (p_optim p) as [d|] eqn:Hd; [|done]. injection Hs as <-.
  assert (Hd' : dict_wf d) by by apply (model_wf_elem model p).
  assert (Hkeys : NoDup (elements (frozenset_items d)).*1).
  { unfold frozenset_items. rewrite elements_list_to_set; [done|].
    by apply dict_wf_NoDup. }
  rewrite dict_update_nil by done. split_and!; [done..|].
  unfold frozenset_items at 1. apply list_to_set_elements_L.
Qed.

(** The test of line 79 holds of the parameters that carry the override
    set, however their dicts were built. *)
Lemma optim_eq_spec model p s :
  model_wf model → p ∈ model → s ∈ override_sets model →
  optim_eq p (dict_update [] (elements s)) = true ↔ override_of p = Some s.
Proof.
  intros Hwf Hp Hs.
  destruct (special_hp_spec model s Hwf Hs) as (_ & Hhp & Hset).
  unfold optim_eq, override_of. destruct (p_optim p) as [d|] eqn:Hd; simpl.
  - rewrite dict_eqb_spec; [|by apply (model_wf_elem model p)|done].
    rewrite Hset. split; [by intros -> | by intros [= ->]].
  - done.
Qed.

(** ** Heap operations *)

(** Unfolds the first bind of a computation in the goal. *)
Ltac step_bind := unfold mbind at 1; unfold M_bind at 1.

(** Closes a decidable goal about the examples by evaluation. *)
Ltac by_evaluation := apply (bool_decide_unpack _); vm_compute; exact I.

Lemma getitem_ref l k h :
  getitem (ORef l) k h =
  match h !! l with
  | Some d =>
      match dict_get d k with
      | Some v => (Ok v, h)
      | None => (Err KeyError, h)
      end
  | None => (Err TypeError, h)
  end.
Proof.
  unfold getitem, mbind, M_bind, deref.
  destruct (h !! l) as [d|]; [|done]. by destruct (dict_get d k).
Qed.

Lemma getitem_frame o k h : (getitem o k h).2 = h.
Proof.
  destruct o; try done. rewrite getitem_ref.
  destruct (h !! l) as [d|]; [|done]. by destruct (dict_get d k).
Qed.

Lemma getitem_Ok o k h v h' :
  getitem o k h = (Ok v, h') →
  h' = h ∧ ∃ l d, o = ORef l ∧ h !! l = Some d ∧ dict_get d k = Some v.
Proof.
  destruct o as [| |l|]; try done. rewrite getitem_ref.
  destruct (h !! l) as [d|] eqn:Hl; [|done].
  destruct (dict_get d k) as [v'|] eqn:Hk; [|done].
  intros [= -> ->]. split; [done|]. by exists l, d.
Qed.

(** ** The type lookup *)

Lemma resolves_functional builtin custom t ty ty' :
  resolves builtin custom t ty → resolves builtin custom t ty' → ty = ty'.
Proof. destruct 1; inversion 1; congruence. Qed.

Section lookup_type_lemmas.
Context (builtin custom : gmap string obj).

Lemma lookup_type_ref l d t h :
  h !! l = Some d → dict_get d "TYPE" = Some t →
  lookup_type builtin custom (ORef l) h =
  match t with
  | OType c => (Ok (OType c), h)
  | OVal (VStr name) =>
      match builtin !! name with
      | Some ty => (Ok ty, h)
      | None =>
          match custom !! name with
          | Some ty => (Ok ty, h)
          | None => (Err AttributeError, h)
          end
      end
  | _ => (Err TypeError, h)
  end.
Proof.
  intros Hl Ht.
  assert (Hget : getitem (ORef l) "TYPE" h = (Ok t, h)).
  { by rewrite getitem_ref, Hl, Ht. }
  unfold lookup_type. revert Hget.
  generalize (getitem (ORef l) "TYPE"). intros g Hget.
  unfold mbind, M_bind. rewrite Hget.
  destruct t as [[| |name|]|c|l'|o]; simpl; rewrite ?Hget; try done.
  unfold hasattr, getattr, mret, M_ret, raise.
  destruct (builtin !! name) as [ty|] eqn:Hb.
  - rewrite bool_decide_eq_true_2 by eauto. by rewrite Hget, Hb.
  - rewrite bool_decide_eq_false_2 by (by intros [? ?]). rewrite Hget.
    by destruct (custom !! name).
Qed.

Lemma lookup_type_run l d t ty h :
  h !! l = Some d → dict_get d "TYPE" = Some t → resolves builtin custom t ty →
  lookup_type builtin custom (ORef l) h = (Ok ty, h).
Proof.
  intros Hl Ht Hr. rewrite (lookup_type_ref l d t) by done.
  destruct Hr as [c|name ty Hb|name ty Hb Hc]; [done|by rewrite Hb|by rewrite Hb, Hc].
Qed.

Lemma lookup_type_Ok cfg h ty h' :
  lookup_type builtin custom cfg h = (Ok ty, h') →
  h' = h ∧ ∃ l d t, cfg = ORef l ∧ h !! l = Some d
    ∧ dict_get d "TYPE" = Some t ∧ resolves builtin custom t ty.
Proof.
  intros Hrun.
  destruct (getitem cfg "TYPE" h) as [[t|e] h1] eqn:Hget; last first.
  { unfold lookup_type, mbind, M_bind in Hrun. by rewrite Hget in Hrun. }
  apply getitem_Ok in Hget as (-> & l & d & -> & Hl & Ht).
  rewrite (lookup_type_ref l d t) in Hrun by done.
  destruct t as [[| |name|]|c|l'|o]; try done.
  - destruct (builtin !! name) as [ty'|] eqn:Hb.
    + injection Hrun as <- <-. split; [done|].
      exists l, d, (OVal (VStr name)). eauto using resolves_builtin.
    + destruct (custom !! name) as [ty'|] eqn:Hc; [|done].
      injection Hrun as <- <-. split; [done|].
      exists l, d, (OVal (VStr name)). eauto using resolves_custom.
  - injection Hrun as <- <-. split; [done|].
    exists l, d, (OType c). eauto using resolves_type.
Qed.

Lemma lookup_type_frame cfg h : (lookup_type builtin custom cfg h).2 = h.
Proof.
  destruct (getitem cfg "TYPE" h) as [[t|e] h1] eqn:Hget.
  - apply getitem_Ok in Hget as (-> & l & d & -> & Hl & Ht).
    rewrite (lookup_type_ref l d t) by done.
    destruct t as [[| |name|]|c|l'|o]; try done.
    destruct (builtin !! name); [done|]. by destruct (custom !! name).
  - pose proof (getitem_frame cfg "TYPE" h) as Hfr. rewrite Hget in Hfr.
    simpl in Hfr. subst h1.
    unfold lookup_type, mbind, M_bind. by rewrite Hget.
Qed.

End lookup_type_lemmas.

(** ** Runs of [build_optim] *)

Lemma build_optim_ref E l d model h :
  h !! l = Some d →
  build_optim E (ORef l) model h =
  match lookup_type (optim E) (easyoptim E) (ORef l) h with
  | (Ok ty, _) =>
      match dict_get d "PARAM" with
      | Some (ORef lp) =>
          match h !! lp with
          | Some kw => grouped_optimizer E ty kw model (<[fresh (dom h) := kw]> h)
          | None => (Err AttributeError, h)
          end
      | Some _ => (Err AttributeError, h)
      | None => (Err KeyError, h)
      end
  | (Err e, _) => (Err e, h)
  end.
Proof.
  intros Hl. unfold build_optim.
  pose proof (lookup_type_frame (optim E) (easyoptim E) (ORef l) h) as Hfr.
  step_bind.
  destruct (lookup_type (optim E) (easyoptim E) (ORef l) h) as [[ty|e] h1];
    simpl in Hfr; subst h1; [|done].
  step_bind. rewrite getitem_ref, Hl.
  destruct (dict_get d "PARAM") as [prm|]; [|done].
  step_bind.
  destruct prm as [v|c|lp|o]; try done. simpl.
  destruct (h !! lp) as [kw|] eqn:Hlp; [|done].
  step_bind. simpl.
  by rewrite lookup_insert_eq.
Qed.

Lemma build_optim_run E l d t ty lp kw model h :
  h !! l = Some d → dict_get d "TYPE" = Some t →
  resolves (optim E) (easyoptim E) t ty →
  dict_get d "PARAM" = Some (ORef lp) → h !! lp = Some kw →
  build_optim E (ORef l) model h
  = grouped_optimizer E ty kw model (<[fresh (dom h) := kw]> h).
Proof.
  intros Hl Ht Hr Hp Hlp. rewrite (build_optim_ref E l d) by done.
  by rewrite (lookup_type_run _ _ l d t ty), Hp, Hlp.
Qed.

Lemma build_optim_Ok E cfg model h opt h' :
  build_optim E cfg model h = (Ok opt, h') →
  ∃ l d t ty lp kw,
    cfg = ORef l ∧ h !! l = Some d ∧ dict_get d "TYPE" = Some t
    ∧ resolves (optim E) (easyoptim E) t ty
    ∧ dict_get d "PARAM" = Some (ORef lp) ∧ h !! lp = Some kw
    ∧ grouped_optimizer E ty kw model (<[fresh (dom h) := kw]> h) = (Ok opt, h').
Proof.
  intros Hrun.
  destruct (lookup_type (optim E) (easyoptim E) cfg h) as [[ty|e] h1] eqn:Hty;
    last first.
  { unfold build_optim, mbind, M_bind in Hrun. by rewrite Hty in Hrun. }
  apply lookup_type_Ok in Hty as Hty'.
  destruct Hty' as (-> & l & d & t & -> & Hl & Ht & Hr).
  rewrite (build_optim_ref E l d), Hty in Hrun by done.
  destruct (dict_get d "PARAM") as [[v|c|lp|o]|] eqn:Hp; try done.
  destruct (h !! lp) as [kw|] eqn:Hlp; [|done].
  by exists l, d, t, ty, lp, kw.
Qed.

(** ** The parameter groups *)

Lemma add_param_group_Ok o raw o' :
  add_param_group o raw = Ok o' →
  ∃ g, stored_group (o_defaults o) raw g
    ∧ o' = Optimizer (o_type o) (o_defaults o) (param_groups o ++ [g]).
Proof.
  unfold add_param_group. destruct (dict_get raw "params") as [e|] eqn:He; [|done].
  destruct (as_tensors e) as [ps|] eqn:Hps; [|done]. simpl.
  destruct (existsb _ ps); [done|]. intros [= <-].
  eexists. split; [|done]. by exists e, ps.
Qed.

Lemma add_special_groups_Ok model o hps o' :
  add_special_groups model o hps = Ok o' →
  o_type o' = o_type o ∧ o_defaults o' = o_defaults o
  ∧ ∃ gs, param_groups o' = param_groups o ++ gs
      ∧ Forall2 (λ hp g, stored_group (o_defaults o) (special_group model hp) g) hps gs.
Proof.
  revert o. induction hps as [|hp hps IH]; intros o; simpl.
  - intros [= <-]. split_and!; [done..|]. exists []. by rewrite app_nil_r.
  - unfold add_special_group.
    destruct (add_param_group o (special_group model hp)) as [o1|] eqn:Hadd; [|done].
    simpl. intros (Hty & Hdef & gs & Hgs & HF)%IH.
    apply add_param_group_Ok in Hadd as (g & Hg & ->). simpl in *.
    split_and!; [done..|]. exists (g :: gs). split.
    + by rewrite Hgs, <- app_assoc.
    + by constructor.
Qed.

Lemma new_optimizer_Ok E ty params kwargs h o h' :
  new_optimizer E ty params kwargs h = (Ok o, h') →
  ∃ c defaults, ty = OType c ∧ optim_init E c kwargs h = (Ok defaults, h')
    ∧ params ≠ []
    ∧ o = Optimizer c defaults [fill_defaults defaults [("params", Params params)]].
Proof.
  destruct ty as [|c| |]; try done. simpl. step_bind.
  destruct (optim_init E c kwargs h) as [[defaults|] h1] eqn:Hinit; [|done].
  unfold lift, Optimizer_init. destruct params as [|p params]; [done|].
  intros [= Hadd <-].
  apply add_param_group_Ok in Hadd as (g & (e & ps & He & Hps & ->) & ->).
  simpl in *. injection He as <-. injection Hps as <-.
  by exists c, defaults.
Qed.

Lemma grouped_optimizer_Ok E ty kwargs model h opt h' :
  grouped_optimizer E ty kwargs model h = (Ok opt, h') →
  ∃ c gs, ty = OType c ∧ o_type opt = c
    ∧ optim_init E c kwargs h = (Ok (o_defaults opt), h')
    ∧ filter (λ p, ¬ has_optim p) model ≠ []
    ∧ param_groups opt = default_group (o_defaults opt) model :: gs
    ∧ Forall2 (λ hp g, stored_group (o_defaults opt) (special_group model hp) g)
        (special_hps model) gs.
Proof.
  unfold grouped_optimizer. step_bind.
  destruct (new_optimizer E ty _ kwargs h) as [[o|] h1] eqn:Hnew; [|done].
  apply new_optimizer_Ok in Hnew as (c & defaults & -> & Hinit & Hne & ->).
  unfold lift. intros [= Hadd <-].
  apply add_special_groups_Ok in Hadd as (Hty & Hdef & gs & Hgs & HF). simpl in *.
  exists c, gs. rewrite Hdef. by split_and!.
Qed.

(** The run when the class is found and its constructor has returned. *)
Lemma grouped_optimizer_run E c kwargs model h defaults h' :
  optim_init E c kwargs h = (Ok defaults, h') →
  grouped_optimizer E (OType c) kwargs model h
  = (o ← Optimizer_init c (filter (λ p, ¬ has_optim p) model) defaults;
     add_special_groups model o (special_hps model), h').
Proof.
  intros Hinit. unfold grouped_optimizer. step_bind. simpl. step_bind.
  rewrite Hinit. unfold lift.
  by destruct (Optimizer_init c _ defaults).
Qed.

Lemma grouped_optimizer_Err E c kwargs model h e h' :
  optim_init E c kwargs h = (Err e, h') →
  grouped_optimizer E (OType c) kwargs model h = (Err e, h').
Proof.
  intros Hinit. unfold grouped_optimizer. step_bind. simpl. step_bind.
  by rewrite Hinit.
Qed.

Lemma build_optim_groups E cfg model h opt h' :
  build_optim E cfg model h = (Ok opt, h') →
  ∃ gs, param_groups opt = default_group (o_defaults opt) model :: gs
    ∧ Forall2 (λ hp g, stored_group (o_defaults opt) (special_group model hp) g)
        (special_hps model) gs.
Proof.
  intros (l & d & t & ty & lp & kw & _ & _ & _ & _ & _ & _ & Hopt)%build_optim_Ok.
  apply grouped_optimizer_Ok in Hopt as (c & gs & _ & _ & _ & _ & Hgs & HF).
  by exists gs.
Qed.

Lemma filter_iff_elem_of {A : Type} (P Q : A → Prop)
    `{!∀ x, Decision (P x), !∀ x, Decision (Q x)} (l : list A) :
  (∀ x, x ∈ l → P x ↔ Q x) → filter P l = filter Q l.
Proof.
  induction l as [|a l IH]; intros HPQ; [done|].
  assert (Hl : filter P l = filter Q l).
  { apply IH. intros x Hx. apply HPQ. by right. }
  destruct (decide (P a)) as [Ha|Ha].
  - rewrite !filter_cons_True; [by rewrite Hl | | done].
    apply HPQ; [left | done].
  - rewrite !filter_cons_False; [done | | done].
    intros HQ. apply Ha, HPQ; [left | done].
Qed.

Lemma stored_group_params defaults raw g :
  stored_group defaults raw g →
  ∃ e, dict_get raw "params" = Some e ∧ as_tensors e = Ok (group_params g).
Proof.
  intros (e & ps & He & Hps & ->). exists e. split; [done|].
  unfold group_params. rewrite dict_get_fill_defaults, dict_get_set.
  by rewrite decide_True.
Qed.

Lemma stored_group_hyper defaults raw g k :
  stored_group defaults raw g → k ≠ "params" →
  dict_get g k = from_option Some (Hyper <$> dict_get defaults k) (dict_get raw k).
Proof.
  intros (e & ps & He & Hps & ->) Hk.
  rewrite dict_get_fill_defaults, dict_get_set. by rewrite decide_False.
Qed.

Lemma default_group_params defaults model :
  group_params (default_group defaults model) = filter (λ p, ¬ has_optim p) model.
Proof.
  unfold group_params, default_group. by rewrite dict_get_fill_defaults.
Qed.

Lemma dict_get_hyper_items (hp : dict value) k :
  dict_get (prod_map id Hyper <$> hp) k = Hyper <$> dict_get hp k.
Proof.
  induction hp as [|[k0 v0] hp IH]; simpl; [done|].
  by destruct (decide (k0 = k)).
Qed.

Lemma dict_get_special_group model hp k :
  dict_wf hp →
  dict_get (special_group model hp) k
  = from_option Some
      (if decide ("params" = k)
       then Some (Params (filter (λ p, optim_eq p hp) model)) else None)
      (Hyper <$> dict_get hp k).
Proof.
  intros Hwf. unfold special_group. rewrite dict_get_update.
  - by rewrite dict_get_hyper_items.
  - unfold dict_wf in Hwf. rewrite <- list_fmap_compose.
    by replace (fst ∘ prod_map id Hyper) with (@fst string value).
Qed.

(** The group of the empty override: nothing but the parameter list. *)
Lemma special_group_nil model :
  special_group model [] = [("params", Params (filter (λ p, p_optim p = Some []) model))].
Proof.
  unfold special_group. simpl. do 2 f_equal. f_equal.
  apply list_filter_iff. intros p. unfold optim_eq.
  destruct (p_optim p) as [[|kv d]|]; simpl; split; try done.
Qed.

(** ** The groups of the override sets *)

Lemma no_params_key_elem model p d :
  no_params_key model → p ∈ model → p_optim p = Some d →
  dict_get d "params" = None.
Proof.
  unfold no_params_key. rewrite Forall_forall. intros Hkey Hp Hd.
  specialize (Hkey p Hp). unfold optim_key_free in Hkey. by rewrite Hd in Hkey.
Qed.

Lemma special_hp_key_free model s :
  model_wf model → no_params_key model → s ∈ override_sets model →
  dict_get (dict_update [] (elements s)) "params" = None.
Proof.
  intros Hwf Hkey Hs.
  destruct (special_hp_spec model s Hwf Hs) as (_ & _ & Hset).
  destruct (dict_get _ "params") as [v|] eqn:Hv; [|done]. exfalso.
  apply dict_get_Some_elem_of in Hv.
  apply elem_of_override_sets in Hs as (p & Hp & Hov).
  unfold override_of in Hov. destruct (p_optim p) as [d|] eqn:Hd; [|done].
  injection Hov as Hov. rewrite <- Hset in Hov.
  assert (Hin : ("params", v) ∈ d).
  { apply (elem_of_list_to_set (C := gset _)). unfold frozenset_items in Hov.
    rewrite Hov. by apply elem_of_list_to_set. }
  apply dict_get_elem_of in Hin; [|by apply (model_wf_elem model p)].
  by rewrite (no_params_key_elem model p d) in Hin.
Qed.

(** The groups added for the override sets, when the dicts have unique
    keys and leave ["params"] alone. *)
Lemma special_groups_spec E cfg model h opt h' :
  model_wf model → no_params_key model →
  build_optim E cfg model h = (Ok opt, h') →
  ∃ gs, param_groups opt = default_group (o_defaults opt) model :: gs
    ∧ Forall2 (λ s g, group_of_override model s g ∧ rest_is_default opt s g)
        (override_sets model) gs.
Proof.
  intros Hwf Hkey (gs & Hgs & HF)%build_optim_groups.
  exists gs. split; [done|]. unfold special_hps in HF.
  apply (Forall2_fmap_l (λ s, dict_update [] (elements s))
           (λ hp g, stored_group (o_defaults opt) (special_group model hp) g)) in HF.
  apply Forall2_same_length_lookup in HF as [Hlen HF].
  apply Forall2_same_length_lookup. split; [done|].
  intros i s g Hs Hg. specialize (HF i s g Hs Hg). simpl in HF.
  apply list_elem_of_lookup_2 in Hs.
  destruct (special_hp_spec model s Hwf Hs) as (Hhp & Hhpwf & Hset).
  set (hp := dict_update [] (elements s)) in *.
  assert (Hnokey : dict_get hp "params" = None)
    by by apply (special_hp_key_free model).
  unfold group_of_override, rest_is_default. split_and!.
  - apply stored_group_params in HF as (e & He & Hps).
    rewrite dict_get_special_group, Hnokey in He by done. simpl in He.
    injection He as <-. simpl in Hps. injection Hps as <-.
    apply filter_iff_elem_of. intros p Hp.
    rewrite <- (optim_eq_spec model p s) by done. fold hp.
    by destruct (optim_eq p hp).
  - intros k v Hkv.
    assert (Hget : dict_get hp k = Some v).
    { apply dict_get_elem_of; [done|].
      apply (elem_of_list_to_set (C := gset _)). by rewrite <- Hset in Hkv. }
    assert (Hk : k ≠ "params") by congruence.
    rewrite (stored_group_hyper _ _ _ k HF Hk).
    rewrite dict_get_special_group, Hget by done. done.
  - intros k Hk Hnone.
    assert (Hget : dict_get hp k = None).
    { destruct (dict_get hp k) as [v|] eqn:Hv; [|done].
      destruct (Hnone v). rewrite <- Hset.
      by apply elem_of_list_to_set, dict_get_Some_elem_of. }
    rewrite (stored_group_hyper _ _ _ k HF Hk).
    rewrite dict_get_special_group, Hget by done. simpl.
    by rewrite decide_False.
Qed.

Lemma build_optim_fst_Ok E cfg model h opt :
  (build_optim E cfg model h).1 = Ok opt →
  ∃ h', build_optim E cfg model h = (Ok opt, h').
Proof. destruct (build_optim E cfg model h) as [r h']. simpl. intros ->. eauto. Qed.

(** ** The groups of the example *)

(** Group 0 with the plain parameters, then the groups of the empty
    override, of [{'lr': 0.1}], of [{'lr': 0.2}] and of the override with
    two entries, each with the parameters that carry it. *)
Example example_groups :
  (build_optim example_env (ORef 0) example_model example_heap).1
  = Ok example_optimizer
  ∧ (λ g, pid <$> group_params g) <$> param_groups example_optimizer
    = [[1; 2]; [8]; [3; 4]; [5]; [6; 7]].
Proof. split; vm_compute; reflexivity. Qed.

(** ** Group 0 *)

(** C3. When [build_optim] returns an optimizer, every parameter of the
    model without the [_optim] attribute is in parameter group 0, and group
    0 has as many parameters as the model has parameters without the
    attribute. *)
Theorem default_params_in_group_0 E cfg model h opt :
  (build_optim E cfg model h).1 = Ok opt →
  ∃ g0, param_groups opt !! 0 = Some g0
    ∧ (∀ p, p ∈ model → ¬ has_optim p → p ∈ group_params g0)
    ∧ length (group_params g0) = length (filter (λ p, ¬ has_optim p) model).
Proof.
  intros [h' (gs & Hgs & _)%build_optim_groups]%build_optim_fst_Ok.
  exists (default_group (o_defaults opt) model). rewrite Hgs.
  rewrite default_group_params. split_and!; [done| |done].
  intros p Hp Hno. by apply list_elem_of_filter.
Qed.

Lemma default_params_in_group_0_witness :
  ∃ g0, param_groups example_optimizer !! 0 = Some g0
    ∧ (∀ p, p ∈ example_model → ¬ has_optim p → p ∈ group_params g0)
    ∧ length (group_params g0) = length (filter (λ p, ¬ has_optim p) example_model).
Proof.
  apply (default_params_in_group_0 example_env (ORef 0) example_model example_heap).
  vm_compute. reflexivity.
Defined.

(** ** The empty override *)

(** C8. When [build_optim] returns an optimizer, a parameter whose
    [_optim] is the empty dict is not in group 0; it is in a later group,
    which holds the parameters with an empty [_optim] and whose
    hyperparameters are the defaults of the optimizer. *)
Theorem empty_override_group E cfg model h opt p :
  (build_optim E cfg model h).1 = Ok opt →
  p ∈ model → p_optim p = Some [] →
  ¬ in_group opt 0 p
  ∧ ∃ i g, 0 < i ∧ param_groups opt !! i = Some g
      ∧ group_params g = filter (λ q, p_optim q = Some []) model
      ∧ p ∈ group_params g
      ∧ ∀ k, k ≠ "params" → dict_get g k = Hyper <$> dict_get (o_defaults opt) k.
Proof.
  intros [h' (gs & Hgs & HF)%build_optim_groups]%build_optim_fst_Ok Hp Hemp.
  split.
  - intros (g0 & Hg0 & Hin). rewrite Hgs in Hg0. injection Hg0 as <-.
    rewrite default_group_params in Hin.
    apply list_elem_of_filter in Hin as [Hno _]. apply Hno.
    unfold has_optim. by rewrite Hemp.
  - assert (Hs : ∅ ∈ override_sets model).
    { apply elem_of_override_sets. exists p. split; [done|].
      unfold override_of. by rewrite Hemp. }
    apply list_elem_of_lookup_1 in Hs as [i Hi].
    assert (Hhp : special_hps model !! i = Some []).
    { unfold special_hps. rewrite list_lookup_fmap, Hi. simpl.
      by rewrite elements_empty. }
    destruct (Forall2_lookup_l _ _ _ _ _ HF Hhp) as (g & Hg & Hst).
    rewrite special_group_nil in Hst.
    exists (S i), g. split_and!.
    + lia.
    + by rewrite Hgs.
    + apply stored_group_params in Hst as (e & He & Hps).
      simpl in He. injection He as <-. simpl in Hps. by injection Hps as <-.
    + apply stored_group_params in Hst as (e & He & Hps).
      simpl in He. injection He as <-. simpl in Hps. injection Hps as <-.
      by apply list_elem_of_filter.
    + intros k Hk. rewrite (stored_group_hyper _ _ _ k Hst Hk). simpl.
      by rewrite decide_False.
Qed.

Lemma empty_override_group_witness :
  ¬ in_group example_optimizer 0 w8
  ∧ ∃ i g, 0 < i ∧ param_groups example_optimizer !! i = Some g
      ∧ group_params g = filter (λ q, p_optim q = Some []) example_model
      ∧ w8 ∈ group_params g
      ∧ ∀ k, k ≠ "params"
          → dict_get g k = Hyper <$> dict_get (o_defaults example_optimizer) k.
Proof.
  apply (empty_override_group example_env (ORef 0) example_model example_heap).
  - vm_compute. reflexivity.
  - unfold example_model. repeat constructor.
  - reflexivity.
Defined.

Section special_groups.
Context (E : env) (cfg : obj) (model : list param) (h : gmap nat (dict obj)).
Context (opt : optimizer).
Hypothesis Hwf : model_wf model.
Hypothesis Hkey : no_params_key model.
Hypothesis Hrun : (build_optim E cfg model h).1 = Ok opt.

(** The group of the override set of a parameter. *)
Lemma override_group_lookup p d :
  p ∈ model → p_optim p = Some d →
  ∃ j g, override_sets model !! j = Some (frozenset_items d)
    ∧ param_groups opt !! S j = Some g
    ∧ group_of_override model (frozenset_items d) g
    ∧ p ∈ group_params g.
Proof.
  intros Hp Hd.
  destruct (build_optim_fst_Ok _ _ _ _ _ Hrun) as [h' Hrun'].
  destruct (special_groups_spec _ _ _ _ _ _ Hwf Hkey Hrun') as (gs & Hgs & HF).
  assert (Hov : override_of p = Some (frozenset_items d)).
  { unfold override_of. by rewrite Hd. }
  assert (Hs : frozenset_items d ∈ override_sets model).
  { apply elem_of_override_sets. by exists p. }
  apply list_elem_of_lookup_1 in Hs as [j Hj].
  destruct (Forall2_lookup_l _ _ _ _ _ HF Hj) as (g & Hg & Hgroup & _).
  exists j, g. rewrite Hgs. split_and!; [done..|].
  destruct Hgroup as (-> & _). by apply list_elem_of_filter.
Qed.

(** Where a parameter of some group comes from. *)
Lemma in_group_inv j p :
  in_group opt j p →
  (j = 0 ∧ ¬ has_optim p)
  ∨ (∃ j' s, j = S j' ∧ override_sets model !! j' = Some s ∧ override_of p = Some s).
Proof.
  intros (g & Hg & Hin).
  destruct (build_optim_fst_Ok _ _ _ _ _ Hrun) as [h' Hrun'].
  destruct (special_groups_spec _ _ _ _ _ _ Hwf Hkey Hrun') as (gs & Hgs & HF).
  rewrite Hgs in Hg. destruct j as [|j']; simpl in Hg.
  - left. injection Hg as <-. rewrite default_group_params in Hin.
    apply list_elem_of_filter in Hin as [Hno _]. done.
  - right. destruct (Forall2_lookup_r _ _ _ _ _ HF Hg) as (s & Hs & (Hps & _) & _).
    rewrite Hps in Hin. apply list_elem_of_filter in Hin as [Hov _].
    by exists j', s.
Qed.

Lemma in_group_0 p : p ∈ model → ¬ has_optim p → in_group opt 0 p.
Proof.
  intros Hp Hno.
  destruct (build_optim_fst_Ok _ _ _ _ _ Hrun) as [h' Hrun'].
  destruct (build_optim_groups _ _ _ _ _ _ Hrun') as (gs & Hgs & _).
  exists (default_group (o_defaults opt) model). rewrite Hgs. split; [done|].
  rewrite default_group_params. by apply list_elem_of_filter.
Qed.

End special_groups.

(** ** When [build_optim] returns *)






(** ** An override that binds ["params"] *)

Lemma reserved_model_wf : model_wf reserved_model.
Proof. by_evaluation. Qed.

Lemma reserved_run :
  (build_optim example_env (ORef 0) reserved_model example_heap).1
  = Ok reserved_optimizer.
Proof. vm_compute. reflexivity. Qed.

(** Line 81 for this override: the dict handed to [add_param_group]
    has the empty tuple where the parameters should be. *)
Example reserved_group_dict :
  special_hps reserved_model = [[("params", VTuple [])]]
  ∧ special_group reserved_model [("params", VTuple [])]
    = [("params", Hyper (VTuple []))].
Proof. split; vm_compute; reflexivity. Qed.

(** The optimizer is built, and none of its groups holds [r1]. *)
Lemma reserved_in_no_group i : ¬ in_group reserved_optimizer i r1.
Proof.
  intros (g & Hg & Hin). apply list_elem_of_lookup_2 in Hg.
  assert (Hall : Forall (λ g, r1 ∉ group_params g) (param_groups reserved_optimizer)).
  { by_evaluation. }
  rewrite Forall_forall in Hall. by apply (Hall g).
Qed.

(** ** One group for each override set *)

(** C2, as amended.  When no override dict binds ["params"] and
    [build_optim] returns an optimizer, exactly one group is added for
    every distinct override set; it holds exactly the parameters whose
    [_optim] equals that set, and the items of the set are among its
    hyperparameters. *)
Theorem one_group_per_override E cfg model h opt :
  model_wf model → no_params_key model →
  (build_optim E cfg model h).1 = Ok opt →
  groups_follow_overrides model opt.
Proof.
  intros Hwf Hkey [h' Hrun]%build_optim_fst_Ok.
  destruct (special_groups_spec _ _ _ _ _ _ Hwf Hkey Hrun) as (gs & Hgs & HF).
  exists (default_group (o_defaults opt) model), gs, (override_sets model).
  split_and!; [done|apply NoDup_override_sets| |].
  - intros s. apply elem_of_override_sets.
  - eapply Forall2_impl; [exact HF|]. by intros s g [? _].
Qed.

Lemma one_group_per_override_witness :
  groups_follow_overrides example_model example_optimizer.
Proof.
  apply (one_group_per_override example_env (ORef 0) example_model example_heap).
  - by_evaluation.
  - by_evaluation.
  - vm_compute. reflexivity.
Defined.

(** Without the proviso the statement fails: for [{'params': ()}] the
    optimizer is built, and the group added for the override is empty. *)
Lemma one_group_per_override_needs_proviso :
  model_wf reserved_model
  ∧ (build_optim example_env (ORef 0) reserved_model example_heap).1
    = Ok reserved_optimizer
  ∧ ¬ groups_follow_overrides reserved_model reserved_optimizer.
Proof.
  split_and!; [apply reserved_model_wf | apply reserved_run |].
  intros (g0 & gs & ss & Hgs & _ & Hss & HF).
  assert (Hov : override_of r1 = Some (frozenset_items [("params", VTuple [])])) by reflexivity.
  assert (Hs : frozenset_items [("params", VTuple [])] ∈ ss).
  { apply Hss. exists r1. split; [|done]. unfold reserved_model. repeat constructor. }
  apply list_elem_of_lookup_1 in Hs as [j Hj].
  destruct (Forall2_lookup_l _ _ _ _ _ HF Hj) as (g & Hg & Hps & _).
  apply (reserved_in_no_group (S j)). exists g. rewrite Hgs. split; [done|].
  rewrite Hps. apply list_elem_of_filter. split; [done|].
  unfold reserved_model. repeat constructor.
Qed.

(** ** Equal overrides share a group *)

(** C4, as amended.  When no override dict binds ["params"] and
    [build_optim] returns an optimizer, two parameters whose [_optim]
    dicts have the same items, in whatever order they were inserted, are
    in the same group, and two parameters whose dicts differ in a key or a
    value are in different groups. *)
Theorem equal_overrides_share_group E cfg model h opt :
  model_wf model → no_params_key model →
  (build_optim E cfg model h).1 = Ok opt →
  grouped_by_override model opt.
Proof.
  intros Hwf Hkey Hrun p q dp dq Hp Hq Hdp Hdq.
  destruct (override_group_lookup E cfg model h opt Hwf Hkey Hrun p dp Hp Hdp)
    as (i & gp & Hi & Hgp & (Hpsp & _) & Hinp).
  destruct (override_group_lookup E cfg model h opt Hwf Hkey Hrun q dq Hq Hdq)
    as (j & gq & Hj & Hgq & (Hpsq & _) & Hinq).
  assert (Hovp : override_of p = Some (frozenset_items dp)).
  { unfold override_of. by rewrite Hdp. }
  assert (Hovq : override_of q = Some (frozenset_items dq)).
  { unfold override_of. by rewrite Hdq. }
  split.
  - intros Heq. exists (S i). split; [by exists gp|].
    exists gp. split; [done|]. rewrite Hpsp.
    apply list_elem_of_filter. split; [by rewrite Heq | done].
  - intros Hne. exists (S i), (S j). split_and!.
    + intros [= ->]. congruence.
    + by exists gp.
    + by exists gq.
    + intros (g & Hg & Hin). rewrite Hgq in Hg. injection Hg as <-.
      rewrite Hpsq in Hin. apply list_elem_of_filter in Hin as [Hov _].
      congruence.
    + intros (g & Hg & Hin). rewrite Hgp in Hg. injection Hg as <-.
      rewrite Hpsp in Hin. apply list_elem_of_filter in Hin as [Hov _].
      congruence.
Qed.

Lemma equal_overrides_share_group_witness :
  grouped_by_override example_model example_optimizer.
Proof.
  apply (equal_overrides_share_group example_env (ORef 0) example_model example_heap).
  - by_evaluation.
  - by_evaluation.
  - vm_compute. reflexivity.
Defined.

(** Without the proviso the statement fails: [r1] and [r2] carry equal
    dicts and no group holds them. *)
Lemma equal_overrides_share_group_needs_proviso :
  model_wf reserved_model
  ∧ (build_optim example_env (ORef 0) reserved_model example_heap).1
    = Ok reserved_optimizer
  ∧ ¬ grouped_by_override reserved_model reserved_optimizer.
Proof.
  split_and!; [apply reserved_model_wf | apply reserved_run |].
  intros Hclaim.
  destruct (Hclaim r1 r2 [("params", VTuple [])] [("params", VTuple [])])
    as [Hsame _]; [unfold reserved_model; repeat constructor..|done|done|].
  destruct Hsame as (i & Hin & _); [done|].
  by apply (reserved_in_no_group i).
Qed.

(** ** The groups partition the parameters *)

(** C10, as amended.  When the override dicts have unique keys and none
    binds ["params"], the groups of the optimizer that [build_optim]
    returns partition the parameters of the model. *)
Theorem parameter_groups_partition E cfg model h opt :
  model_wf model → no_params_key model →
  (build_optim E cfg model h).1 = Ok opt →
  groups_partition model opt.
Proof.
  intros Hwf Hkey Hrun p Hp.
  pose proof (in_group_inv E cfg model h opt Hwf Hkey Hrun) as Hinv.
  destruct (p_optim p) as [d|] eqn:Hd.
  - destruct (override_group_lookup E cfg model h opt Hwf Hkey Hrun p d Hp Hd)
      as (j & g & Hj & Hg & Hgroup & Hin).
    exists (S j). split_and!.
    + by exists g.
    + intros j' [[_ Hno]|(j'' & s & -> & Hs & Hov)]%Hinv.
      * destruct Hno. unfold has_optim. by rewrite Hd.
      * f_equal. unfold override_of in Hov. rewrite Hd in Hov.
        injection Hov as <-.
        by apply (NoDup_lookup (override_sets model) j'' j (frozenset_items d));
          [apply NoDup_override_sets|..].
    + exists g. split_and!; [lia|done..].
  - assert (Hno : ¬ has_optim p).
    { unfold has_optim. rewrite Hd. by intros [? ?]. }
    exists 0. split_and!; [by apply (in_group_0 E cfg model h)| |done].
    intros j' [[-> _]|(j'' & s & -> & Hs & Hov)]%Hinv; [done|].
    unfold override_of in Hov. by rewrite Hd in Hov.
Qed.

Lemma parameter_groups_partition_witness :
  groups_partition example_model example_optimizer.
Proof.
  apply (parameter_groups_partition example_env (ORef 0) example_model example_heap).
  - by_evaluation.
  - by_evaluation.
  - vm_compute. reflexivity.
Defined.

(** Without the proviso the statement fails: [r1] is in no group. *)
Lemma parameter_groups_partition_needs_proviso :
  model_wf reserved_model
  ∧ (build_optim example_env (ORef 0) reserved_model example_heap).1
    = Ok reserved_optimizer
  ∧ ¬ groups_partition reserved_model reserved_optimizer.
Proof.
  split_and!; [apply reserved_model_wf | apply reserved_run |].
  intros Hclaim. destruct (Hclaim r1) as (i & Hin & _).
  - unfold reserved_model. repeat constructor.
  - by apply (reserved_in_no_group i).
Qed.

(** ** Runs of [build_lr_scheduler] *)

Lemma build_lr_scheduler_ref E l d optimizer h :
  h !! l = Some d →
  build_lr_scheduler E (ORef l) optimizer h =
  match dict_get d "TYPE" with
  | None => (Err KeyError, h)
  | Some _ =>
      match lookup_type (lr_scheduler E) (easy_lr_scheduler E) (ORef l) h with
      | (Ok ty, _) =>
          match dict_get d "PARAM" with
          | Some (ORef lp) =>
              match h !! lp with
              | Some kw =>
                  let kwargs := dict_set kw "optimizer" (OOptimizer optimizer) in
                  new_scheduler E ty kwargs (<[fresh (dom h) := kwargs]> h)
              | None => (Err AttributeError, h)
              end
          | Some _ => (Err AttributeError, h)
          | None => (Err KeyError, h)
          end
      | (Err e, _) => (Err e, h)
      end
  end.
Proof.
  intros Hl. unfold build_lr_scheduler.
  step_bind. rewrite getitem_ref, Hl.
  destruct (dict_get d "TYPE") as [t|] eqn:Ht; [|done].
  step_bind. unfold setitem. rewrite Hl.
  rewrite (dict_set_id d "TYPE" t Ht), (insert_id h l d Hl).
  pose proof (lookup_type_frame (lr_scheduler E) (easy_lr_scheduler E) (ORef l) h) as Hfr.
  step_bind.
  destruct (lookup_type (lr_scheduler E) (easy_lr_scheduler E) (ORef l) h) as [[ty|e] h1];
    simpl in Hfr; subst h1; [|done].
  step_bind. rewrite getitem_ref, Hl.
  destruct (dict_get d "PARAM") as [prm|]; [|done].
  step_bind.
  destruct prm as [v|c|lp|o]; try done. simpl.
  destruct (h !! lp) as [kw|] eqn:Hlp; [|done].
  step_bind. simpl.
  rewrite lookup_insert_eq, insert_insert_eq.
  step_bind. simpl.
  by rewrite lookup_insert_eq.
Qed.

Lemma build_lr_scheduler_run E l d t ty lp kw optimizer (h : gmap nat (dict obj)) :
  h !! l = Some d → dict_get d "TYPE" = Some t →
  resolves (lr_scheduler E) (easy_lr_scheduler E) t ty →
  dict_get d "PARAM" = Some (ORef lp) → h !! lp = Some kw →
  let kwargs := dict_set kw "optimizer" (OOptimizer optimizer) in
  build_lr_scheduler E (ORef l) optimizer h
  = new_scheduler E ty kwargs (<[fresh (dom h) := kwargs]> h).
Proof.
  intros Hl Ht Hr Hp Hlp. simpl. rewrite (build_lr_scheduler_ref E l d) by done.
  by rewrite Ht, (lookup_type_run _ _ l d t ty), Hp, Hlp.
Qed.

Lemma build_lr_scheduler_fst_Ok E cfg optimizer h s :
  (build_lr_scheduler E cfg optimizer h).1 = Ok s →
  ∃ l d t ty lp kw,
    cfg = ORef l ∧ h !! l = Some d ∧ dict_get d "TYPE" = Some t
    ∧ resolves (lr_scheduler E) (easy_lr_scheduler E) t ty
    ∧ dict_get d "PARAM" = Some (ORef lp) ∧ h !! lp = Some kw
    ∧ let kwargs := dict_set kw "optimizer" (OOptimizer optimizer) in
      (new_scheduler E ty kwargs (<[fresh (dom h) := kwargs]> h)).1 = Ok s.
Proof.
  intros Hrun.
  destruct (getitem cfg "TYPE" h) as [[t0|e] h1] eqn:Hget; last first.
  { unfold build_lr_scheduler, mbind, M_bind in Hrun. by rewrite Hget in Hrun. }
  apply getitem_Ok in Hget as (-> & l & d & -> & Hl & Ht0).
  rewrite (build_lr_scheduler_ref E l d) in Hrun by done. rewrite Ht0 in Hrun.
  destruct (lookup_type (lr_scheduler E) (easy_lr_scheduler E) (ORef l) h)
    as [[ty|e] h1] eqn:Hty; [|done].
  apply lookup_type_Ok in Hty as (-> & l' & d' & t & [= <-] & Hl' & Ht & Hr).
  rewrite Hl in Hl'. injection Hl' as <-.
  destruct (dict_get d "PARAM") as [[v|c|lp|o]|] eqn:Hp; try done.
  destruct (h !! lp) as [kw|] eqn:Hlp; [|done].
  simpl in Hrun. by exists l, d, t, ty, lp, kw.
Qed.

Lemma new_scheduler_Ok E ty kwargs h s :
  (new_scheduler E ty kwargs h).1 = Ok s →
  ∃ c, ty = OType c ∧ (sched_init E c kwargs h).1 = Ok () ∧ s = Scheduler c kwargs.
Proof.
  destruct ty as [|c| |]; try done. simpl. step_bind.
  destruct (sched_init E c kwargs h) as [[[]|] h1] eqn:Hinit; [|done].
  simpl. intros [= <-]. exists c. by rewrite Hinit.
Qed.

(** ** The type lookup of the two builders *)

(** A name that both modules have is the built-in class; a name that only
    the custom module has is found there. *)
Example adam_is_builtin :
  resolves (optim example_env) (easyoptim example_env) (OVal (VStr "Adam")) (OType Adam).
Proof. by apply resolves_builtin. Qed.

Example lamb_is_custom :
  resolves (optim example_env) (easyoptim example_env) (OVal (VStr "Lamb")) (OType Lamb).
Proof. by apply resolves_custom. Qed.

(** [Lamb] is found in the custom module, and [Adam], which both modules
    have, is the class of the built-in module. *)
Example custom_only_after_builtin :
  o_type lamb_optimizer = Lamb
  ∧ run_type (build_optim example_env (ORef 4) example_model custom_heap).1 = Some Adam.
Proof. split; vm_compute; reflexivity. Qed.

(** C5. The class that [build_optim] calls is the one [TYPE] resolves to:
    [TYPE] itself if it is a class, and for a name the entry of
    [torch.optim], or that of [easyoptim] if [torch.optim] has none.
    First, an optimizer that is returned has that class as its type, and
    its defaults are what the constructor of the class made of the items
    of [PARAM].  Second, whenever [TYPE] resolves to a class, the builder
    does what lines 64 to 82 do with that class and the items of
    [PARAM]. *)
Theorem optimizer_type_lookup E cfg model h :
  (∀ opt, (build_optim E cfg model h).1 = Ok opt →
     ∃ l d t lp kwargs,
       cfg = ORef l ∧ h !! l = Some d
       ∧ dict_get d "TYPE" = Some t
       ∧ resolves (optim E) (easyoptim E) t (OType (o_type opt))
       ∧ dict_get d "PARAM" = Some (ORef lp) ∧ h !! lp = Some kwargs
       ∧ (optim_init E (o_type opt) kwargs (<[fresh (dom h) := kwargs]> h)).1
         = Ok (o_defaults opt))
  ∧ (∀ l d t c lp kwargs,
       cfg = ORef l → h !! l = Some d → dict_get d "TYPE" = Some t →
       resolves (optim E) (easyoptim E) t (OType c) →
       dict_get d "PARAM" = Some (ORef lp) → h !! lp = Some kwargs →
       build_optim E cfg model h
       = grouped_optimizer E (OType c) kwargs model (<[fresh (dom h) := kwargs]> h)).
Proof.
  split.
  - intros opt [h' Hrun]%build_optim_fst_Ok.
    apply build_optim_Ok in Hrun
      as (l & d & t & ty & lp & kw & -> & Hl & Ht & Hr & Hp & Hlp & Hopt).
    apply grouped_optimizer_Ok in Hopt as (c & gs & -> & <- & Hinit & _).
    exists l, d, t, lp, kw. split_and!; [done..|]. by rewrite Hinit.
  - intros l d t c lp kw -> Hl Ht Hr Hp Hlp.
    by apply (build_optim_run E l d t (OType c) lp kw).
Qed.

Lemma optimizer_type_lookup_witness :
  (∃ l d t lp kwargs,
     ORef 0 = ORef l ∧ custom_heap !! l = Some d
     ∧ dict_get d "TYPE" = Some t
     ∧ resolves (optim example_env) (easyoptim example_env) t
         (OType (o_type lamb_optimizer))
     ∧ dict_get d "PARAM" = Some (ORef lp) ∧ custom_heap !! lp = Some kwargs
     ∧ (optim_init example_env (o_type lamb_optimizer) kwargs
          (<[fresh (dom custom_heap) := kwargs]> custom_heap)).1
       = Ok (o_defaults lamb_optimizer))
  ∧ build_optim example_env (ORef 0) example_model custom_heap
    = grouped_optimizer example_env (OType Lamb) [("lr", OVal (num 1 100))]
        example_model
        (<[fresh (dom custom_heap) := [("lr", OVal (num 1 100))]]> custom_heap).
Proof.
  destruct (optimizer_type_lookup example_env (ORef 0) example_model custom_heap)
    as [Hback Hfwd].
  split.
  - apply Hback. vm_compute. reflexivity.
  - apply (Hfwd 0 [("TYPE", OVal (VStr "Lamb")); ("PARAM", ORef 1)]
             (OVal (VStr "Lamb")) Lamb 1).
    + reflexivity.
    + vm_compute. reflexivity.
    + reflexivity.
    + apply resolves_custom; vm_compute; reflexivity.
    + reflexivity.
    + vm_compute. reflexivity.
Defined.

(** C6. The class that [build_lr_scheduler] calls is the one [TYPE]
    resolves to, with [torch.optim.lr_scheduler] asked before
    [easy_lr_scheduler], and it is called with the items of [PARAM] and
    the optimizer under the keyword [optimizer].  First, a scheduler that
    is returned has that class as its type and these keyword arguments,
    which the constructor of the class has accepted.  Second, whenever
    [TYPE] resolves to a class, the builder returns or raises what the
    constructor of that class does on these keyword arguments. *)
Theorem scheduler_type_lookup E cfg optimizer h :
  (∀ s, (build_lr_scheduler E cfg optimizer h).1 = Ok s →
     ∃ l d t lp kwargs,
       cfg = ORef l ∧ h !! l = Some d
       ∧ dict_get d "TYPE" = Some t
       ∧ resolves (lr_scheduler E) (easy_lr_scheduler E) t (OType (s_type s))
       ∧ dict_get d "PARAM" = Some (ORef lp) ∧ h !! lp = Some kwargs
       ∧ s_kwargs s = dict_set kwargs "optimizer" (OOptimizer optimizer)
       ∧ dict_get (s_kwargs s) "optimizer" = Some (OOptimizer optimizer)
       ∧ (sched_init E (s_type s) (s_kwargs s)
            (<[fresh (dom h) := s_kwargs s]> h)).1 = Ok ())
  ∧ (∀ l d t c lp kw,
       cfg = ORef l → h !! l = Some d → dict_get d "TYPE" = Some t →
       resolves (lr_scheduler E) (easy_lr_scheduler E) t (OType c) →
       dict_get d "PARAM" = Some (ORef lp) → h !! lp = Some kw →
       let kwargs := dict_set kw "optimizer" (OOptimizer optimizer) in
       build_lr_scheduler E cfg optimizer h
       = (_ ← sched_init E c kwargs; mret (Scheduler c kwargs))
           (<[fresh (dom h) := kwargs]> h)).
Proof.
  split.
  - intros s (l & d & t & ty & lp & kw & -> & Hl & Ht & Hr & Hp & Hlp & Hnew)
      %build_lr_scheduler_fst_Ok.
    apply new_scheduler_Ok in Hnew as (c & -> & Hinit & ->). simpl.
    exists l, d, t, lp, kw. split_and!; [done..| |done].
    rewrite dict_get_set. by rewrite decide_True.
  - intros l d t c lp kw -> Hl Ht Hr Hp Hlp.
    by apply (build_lr_scheduler_run E l d t (OType c) lp kw).
Qed.

Lemma scheduler_type_lookup_witness :
  (∃ l d t lp kwargs,
     ORef 2 = ORef l ∧ custom_heap !! l = Some d
     ∧ dict_get d "TYPE" = Some t
     ∧ resolves (lr_scheduler example_env) (easy_lr_scheduler example_env) t
         (OType CosineWarmup)
     ∧ dict_get d "PARAM" = Some (ORef lp) ∧ custom_heap !! lp = Some kwargs
     ∧ [("warmup", OVal (num 5 1)); ("optimizer", OOptimizer lamb_optimizer)]
       = dict_set kwargs "optimizer" (OOptimizer lamb_optimizer)
     ∧ dict_get [("warmup", OVal (num 5 1)); ("optimizer", OOptimizer lamb_optimizer)]
         "optimizer" = Some (OOptimizer lamb_optimizer)
     ∧ (sched_init example_env CosineWarmup
          [("warmup", OVal (num 5 1)); ("optimizer", OOptimizer lamb_optimizer)]
          (<[fresh (dom custom_heap) :=
               [("warmup", OVal (num 5 1)); ("optimizer", OOptimizer lamb_optimizer)]]>
             custom_heap)).1 = Ok ())
  ∧ build_lr_scheduler example_env (ORef 2) lamb_optimizer custom_heap
    = (_ ← sched_init example_env CosineWarmup
             (dict_set [("warmup", OVal (num 5 1))] "optimizer" (OOptimizer lamb_optimizer));
       mret (Scheduler CosineWarmup
               (dict_set [("warmup", OVal (num 5 1))] "optimizer"
                  (OOptimizer lamb_optimizer))))
        (<[fresh (dom custom_heap) :=
             dict_set [("warmup", OVal (num 5 1))] "optimizer" (OOptimizer lamb_optimizer)]>
           custom_heap).
Proof.
  destruct (scheduler_type_lookup example_env (ORef 2) lamb_optimizer custom_heap)
    as [Hback Hfwd].
  split.
  - apply (Hback (Scheduler CosineWarmup
                    [("warmup", OVal (num 5 1)); ("optimizer", OOptimizer lamb_optimizer)])).
    vm_compute. reflexivity.
  - apply (Hfwd 2 [("TYPE", OVal (VStr "CosineWarmup")); ("PARAM", ORef 3)]
             (OVal (VStr "CosineWarmup")) CosineWarmup 3).
    + reflexivity.
    + vm_compute. reflexivity.
    + reflexivity.
    + apply resolves_custom; vm_compute; reflexivity.
    + reflexivity.
    + vm_compute. reflexivity.
Defined.

(** C7. A name that neither module of a builder has makes the builder
    raise [AttributeError]: nothing is built and nothing else is tried. *)
Theorem unknown_type_fails E l d name model optimizer h :
  h !! l = Some d → dict_get d "TYPE" = Some (OVal (VStr name)) →
  (optim E !! name = None → easyoptim E !! name = None →
     build_optim E (ORef l) model h = (Err AttributeError, h))
  ∧ (lr_scheduler E !! name = None → easy_lr_scheduler E !! name = None →
     build_lr_scheduler E (ORef l) optimizer h = (Err AttributeError, h)).
Proof.
  intros Hl Ht. split; intros Hb Hc.
  - rewrite (build_optim_ref E l d) by done.
    by rewrite (lookup_type_ref _ _ l d _ h Hl Ht), Hb, Hc.
  - rewrite (build_lr_scheduler_ref E l d) by done. rewrite Ht.
    by rewrite (lookup_type_ref _ _ l d _ h Hl Ht), Hb, Hc.
Qed.

Lemma unknown_type_fails_witness :
  build_optim example_env (ORef 4) example_model example_heap
  = (Err AttributeError, example_heap)
  ∧ build_lr_scheduler example_env (ORef 4) example_optimizer example_heap
    = (Err AttributeError, example_heap).
Proof.
  destruct (unknown_type_fails example_env 4
              [("TYPE", OVal (VStr "RMSprop")); ("PARAM", ORef 1)] "RMSprop"
              example_model example_optimizer example_heap)
    as [Hoptim Hsched]; [vm_compute; reflexivity | reflexivity |].
  split; [apply Hoptim | apply Hsched]; vm_compute; reflexivity.
Defined.

(** ** The configuration dictionaries *)

Lemma lookup_insert_fresh (h : gmap nat (dict obj)) kw l :
  is_Some (h !! l) → <[fresh (dom h) := kw]> h !! l = h !! l.
Proof.
  intros Hl. apply lookup_insert_ne. intros <-.
  by apply (is_fresh (dom h)), elem_of_dom.
Qed.

Lemma elem_of_refs d l : l ∈ refs d ↔ ∃ k, (k, ORef l) ∈ d.
Proof.
  unfold refs. rewrite list_elem_of_omap. split.
  - intros ([k [v|c|l'|o]] & Hin & [= <-]). by exists k.
  - intros [k Hin]. by exists (k, ORef l).
Qed.

(** Putting the optimizer into the keyword arguments adds no dict to them. *)
Lemma refs_dict_set_optimizer kw k o l :
  l ∈ refs (dict_set kw k (OOptimizer o)) → l ∈ refs kw.
Proof.
  rewrite !elem_of_refs. intros [k' Hin]. exists k'.
  induction kw as [|[k0 v0] kw IH]; simpl in Hin.
  - by apply list_elem_of_singleton in Hin.
  - case_decide.
    + apply elem_of_cons in Hin as [[=]|Hin]. by right.
    + apply elem_of_cons in Hin as [->|Hin]; [left | right; auto].
Qed.

(** After the copy of [PARAM], the heap changes only in the constructor. *)
Lemma grouped_optimizer_heap E ty kw model h :
  (grouped_optimizer E ty kw model h).2 = h
  ∨ ∃ c, (grouped_optimizer E ty kw model h).2 = (optim_init E c kw h).2.
Proof.
  destruct ty as [|c| |]; try by left. right. exists c.
  unfold grouped_optimizer. step_bind. simpl. step_bind.
  destruct (optim_init E c kw h) as [[defaults|e] h1]; [|done].
  unfold lift. by destruct (Optimizer_init c _ defaults).
Qed.

Lemma new_scheduler_heap E ty kwargs h :
  (new_scheduler E ty kwargs h).2 = h
  ∨ ∃ c, (new_scheduler E ty kwargs h).2 = (sched_init E c kwargs h).2.
Proof.
  destruct ty as [|c| |]; try by left. right. exists c.
  simpl. step_bind. by destruct (sched_init E c kwargs h) as [[[]|e] h1].
Qed.

Lemma param_refs_ref h l d lp kw :
  h !! l = Some d → dict_get d "PARAM" = Some (ORef lp) → h !! lp = Some kw →
  param_refs h (ORef l) = refs kw.
Proof. intros Hl Hp Hlp. unfold param_refs. rewrite Hl. simpl. by rewrite Hp, Hlp. Qed.

Lemma build_optim_frame E cfg model h l :
  writes_arguments_only E → is_Some (h !! l) → l ∉ param_refs h cfg →
  (build_optim E cfg model h).2 !! l = h !! l.
Proof.
  intros HE Hl Hrefs.
  destruct (getitem cfg "TYPE" h) as [[t|e] h1] eqn:Hget.
  - apply getitem_Ok in Hget as (-> & lc & d & -> & Hlc & Ht).
    rewrite (build_optim_ref E lc d) by done.
    destruct (lookup_type _ _ _ h) as [[ty|e] h1]; [|done].
    destruct (dict_get d "PARAM") as [[v|c|lp|o]|] eqn:Hp; try done.
    destruct (h !! lp) as [kw|] eqn:Hlp; [|done].
    rewrite (param_refs_ref h lc d lp kw) in Hrefs by done.
    destruct (grouped_optimizer_heap E ty kw model (<[fresh (dom h) := kw]> h))
      as [->|[c ->]]; [by apply lookup_insert_fresh|].
    rewrite <- (lookup_insert_fresh h kw l Hl). by apply HE.
  - pose proof (getitem_frame cfg "TYPE" h) as Hfr.
    rewrite Hget in Hfr. simpl in Hfr. subst h1.
    unfold build_optim, lookup_type, mbind, M_bind. by rewrite Hget.
Qed.

Lemma build_lr_scheduler_frame E cfg optimizer h l :
  writes_arguments_only E → is_Some (h !! l) → l ∉ param_refs h cfg →
  (build_lr_scheduler E cfg optimizer h).2 !! l = h !! l.
Proof.
  intros HE Hl Hrefs.
  destruct (getitem cfg "TYPE" h) as [[t|e] h1] eqn:Hget.
  - apply getitem_Ok in Hget as (-> & lc & d & -> & Hlc & Ht).
    rewrite (build_lr_scheduler_ref E lc d) by done. rewrite Ht.
    destruct (lookup_type _ _ _ h) as [[ty|e] h1]; [|done].
    destruct (dict_get d "PARAM") as [[v|c|lp|o]|] eqn:Hp; try done.
    destruct (h !! lp) as [kw|] eqn:Hlp; [|done].
    rewrite (param_refs_ref h lc d lp kw) in Hrefs by done.
    simpl.
    destruct (new_scheduler_heap E ty (dict_set kw "optimizer" (OOptimizer optimizer))
                (<[fresh (dom h) := dict_set kw "optimizer" (OOptimizer optimizer)]> h))
      as [->|[c ->]]; [by apply lookup_insert_fresh|].
    rewrite <- (lookup_insert_fresh h (dict_set kw "optimizer" (OOptimizer optimizer)) l Hl).
    apply HE. intros Hin. by apply Hrefs, (refs_dict_set_optimizer kw "optimizer" optimizer).
  - pose proof (getitem_frame cfg "TYPE" h) as Hfr.
    rewrite Hget in Hfr. simpl in Hfr. subst h1.
    unfold build_lr_scheduler, mbind, M_bind. by rewrite Hget.
Qed.

(** The constructors of the examples write to no dict, or to the dict of
    options they are given. *)
Lemma example_env_local : writes_arguments_only example_env.
Proof.
  intros c kwargs h l _. split; [done|]. simpl.
  by destruct (dict_get kwargs "optimizer") as [[| | |]|].
Qed.

Lemma noting_init_frame kwargs h l :
  l ∉ refs kwargs → (noting_init kwargs h).2 !! l = h !! l.
Proof.
  intros Hl. unfold noting_init.
  destruct (dict_get kwargs "options") as [[v|c|l2|o]|] eqn:Ho; try done. simpl.
  destruct (h !! l2) as [d|]; [|done]. simpl.
  apply lookup_insert_ne. intros ->. apply Hl, elem_of_refs.
  exists "options". by apply dict_get_Some_elem_of.
Qed.

Lemma noting_env_local : writes_arguments_only noting_env.
Proof.
  intros c kwargs h l Hl. split; [|by apply noting_init_frame].
  pose proof (noting_init_frame kwargs h l Hl) as Hfr.
  simpl. step_bind. by destruct (noting_init kwargs h) as [[[]|] h1].
Qed.

(** A write through a reference is seen by every holder of the dict: had
    the optimizer been put into [PARAM] itself, the configuration would
    have changed. *)
Example write_through_reference :
  (setitem (ORef 3) "optimizer" (OOptimizer example_optimizer) example_heap).2 !! 3
  = Some [("step_size", OVal (num 30 1)); ("optimizer", OOptimizer example_optimizer)].
Proof. vm_compute. reflexivity. Qed.

(** The scheduler builder writes to the copy, a new object at [5], and
    [PARAM] at [3] keeps its one item. *)
Example scheduler_copy :
  let h' := (build_lr_scheduler example_env (ORef 2) example_optimizer example_heap).2 in
  h' !! 3 = Some [("step_size", OVal (num 30 1))]
  ∧ h' !! 5
    = Some [("step_size", OVal (num 30 1)); ("optimizer", OOptimizer example_optimizer)].
Proof. split; vm_compute; reflexivity. Qed.




(** ** The order of the override sets *)

(** C1 does not hold of the code.  [sorted] compares frozensets with [<],
    which is the proper subset: [{'lr': 0.1}] and [{'lr': 0.2}] are not
    comparable, and the sort leaves them in the order of their first
    occurrence.  For the two listings [w1, w3, w5] and [w1, w5, w3] of the
    same parameters, of which [w1] has no [_optim], the builder returns an
    optimizer each time; the override sets of lines 73 to 77 come in two
    different orders, and so do the groups: group 1 is the group of [w3]
    for one listing and the group of [w5] for the other. *)
Theorem override_sets_order :
  [w1; w3; w5] ≡ₚ [w1; w5; w3]
  ∧ (∃ opt, (build_optim example_env (ORef 0) [w1; w3; w5] example_heap).1 = Ok opt)
  ∧ (∃ opt, (build_optim example_env (ORef 0) [w1; w5; w3] example_heap).1 = Ok opt)
  ∧ override_sets [w1; w3; w5]
    = [frozenset_items [("lr", num 1 10)]; frozenset_items [("lr", num 1 5)]]
  ∧ override_sets [w1; w5; w3]
    = [frozenset_items [("lr", num 1 5)]; frozenset_items [("lr", num 1 10)]]
  ∧ override_sets [w1; w3; w5] ≠ override_sets [w1; w5; w3]
  ∧ group_pids (build_optim example_env (ORef 0) [w1; w3; w5] example_heap).1
    = [[1]; [3]; [5]]
  ∧ group_pids (build_optim example_env (ORef 0) [w1; w5; w3] example_heap).1
    = [[1]; [5]; [3]].
Proof.
  split_and!.
  - apply perm_skip, perm_swap.
  - eexists. vm_compute. reflexivity.
  - eexists. vm_compute. reflexivity.
  - by_evaluation.
  - by_evaluation.
  - by_evaluation.
  - vm_compute. reflexivity.
  - vm_compute. reflexivity.
Qed.

(** Without a parameter for group 0 the builder does not get as far:
    the optimizer class refuses the empty list of line 67. *)
Example overrides_alone_fail :
  (build_optim example_env (ORef 0) [w3; w5] example_heap).1 = Err ValueError.
Proof. vm_compute. reflexivity. Qed.

(** * Further properties *)

(** ** Malformed configurations *)

(** X4. A configuration without [TYPE] makes both builders raise [KeyError]
    at the first read; nothing is built and no dict is made or changed. *)
Theorem missing_type_key E l d model optimizer (h : gmap nat (dict obj)) :
  h !! l = Some d → dict_get d "TYPE" = None →
  build_optim E (ORef l) model h = (Err KeyError, h)
  ∧ build_lr_scheduler E (ORef l) optimizer h = (Err KeyError, h).
Proof.
  intros Hl Ht.
  assert (Hget : getitem (ORef l) "TYPE" h = (Err KeyError, h)).
  { by rewrite getitem_ref, Hl, Ht. }
  split.
  - unfold build_optim, lookup_type, mbind, M_bind. by rewrite Hget.
  - rewrite (build_lr_scheduler_ref E l d) by done. by rewrite Ht.
Qed.

Lemma missing_type_key_witness :
  build_optim example_env (ORef 0) example_model malformed_heap
  = (Err KeyError, malformed_heap)
  ∧ build_lr_scheduler example_env (ORef 0) example_optimizer malformed_heap
    = (Err KeyError, malformed_heap).
Proof.
  apply (missing_type_key example_env 0 [("PARAM", ORef 1)]).
  - vm_compute. reflexivity.
  - reflexivity.
Defined.

(** X5. A configuration whose [TYPE] resolves but that has no [PARAM] makes
    both builders raise [KeyError]; the type is looked up first, so for an
    unknown name the error is the [AttributeError] of the lookup. *)
Theorem missing_param_key E l d t model optimizer (h : gmap nat (dict obj)) :
  h !! l = Some d → dict_get d "TYPE" = Some t → dict_get d "PARAM" = None →
  (∀ ty, resolves (optim E) (easyoptim E) t ty →
     build_optim E (ORef l) model h = (Err KeyError, h))
  ∧ (∀ ty, resolves (lr_scheduler E) (easy_lr_scheduler E) t ty →
     build_lr_scheduler E (ORef l) optimizer h = (Err KeyError, h)).
Proof.
  intros Hl Ht Hp. split; intros ty Hr.
  - rewrite (build_optim_ref E l d) by done.
    by rewrite (lookup_type_run _ _ l d t ty), Hp.
  - rewrite (build_lr_scheduler_ref E l d) by done.
    by rewrite Ht, (lookup_type_run _ _ l d t ty), Hp.
Qed.

Lemma missing_param_key_witness :
  build_optim example_env (ORef 2) example_model malformed_heap
  = (Err KeyError, malformed_heap)
  ∧ build_lr_scheduler example_env (ORef 2) example_optimizer malformed_heap
    = (Err KeyError, malformed_heap).
Proof.
  destruct (missing_param_key example_env 2 [("TYPE", OType SGD)] (OType SGD)
              example_model example_optimizer malformed_heap)
    as [Hoptim Hsched]; [vm_compute; reflexivity | reflexivity | reflexivity |].
  split; [apply (Hoptim (OType SGD)) | apply (Hsched (OType SGD))];
    apply resolves_type.
Defined.

(** X6. A [TYPE] that is neither a class nor a string makes both builders
    raise [TypeError]: [hasattr] wants a string for the name. *)
Theorem type_not_a_name E l d t model optimizer (h : gmap nat (dict obj)) :
  h !! l = Some d → dict_get d "TYPE" = Some t →
  is_type t = false → (∀ name, t ≠ OVal (VStr name)) →
  build_optim E (ORef l) model h = (Err TypeError, h)
  ∧ build_lr_scheduler E (ORef l) optimizer h = (Err TypeError, h).
Proof.
  intros Hl Ht Hty Hname.
  assert (Hlook : ∀ builtin custom,
            lookup_type builtin custom (ORef l) h = (Err TypeError, h)).
  { intros. rewrite (lookup_type_ref _ _ l d t) by done.
    destruct t as [[| |name|]|c|l'|o]; try done. by destruct (Hname name). }
  split.
  - rewrite (build_optim_ref E l d) by done. by rewrite Hlook.
  - rewrite (build_lr_scheduler_ref E l d) by done. by rewrite Ht, Hlook.
Qed.

Lemma type_not_a_name_witness :
  build_optim example_env (ORef 3) example_model malformed_heap
  = (Err TypeError, malformed_heap)
  ∧ build_lr_scheduler example_env (ORef 3) example_optimizer malformed_heap
    = (Err TypeError, malformed_heap).
Proof.
  apply (type_not_a_name example_env 3 [("TYPE", OVal VNone); ("PARAM", ORef 1)]
           (OVal VNone)).
  - vm_compute. reflexivity.
  - reflexivity.
  - reflexivity.
  - intros name. discriminate.
Defined.

(** ** Failures of the constructors *)

(** X2. When every parameter of the model carries [_optim] (an empty model
    among them), the list given to the optimizer class is empty and
    [build_optim] raises [ValueError], although type and [PARAM] are
    fine. *)
Theorem all_overridden_fails E l d t c lp kw defaults model (h : gmap nat (dict obj)) :
  h !! l = Some d → dict_get d "TYPE" = Some t →
  resolves (optim E) (easyoptim E) t (OType c) →
  dict_get d "PARAM" = Some (ORef lp) → h !! lp = Some kw →
  (optim_init E c kw (<[fresh (dom h) := kw]> h)).1 = Ok defaults →
  Forall has_optim model →
  (build_optim E (ORef l) model h).1 = Err ValueError.
Proof.
  intros Hl Ht Hr Hp Hlp Hinit Hall.
  rewrite (build_optim_run E l d t (OType c) lp kw) by done.
  destruct (optim_init E c kw _) as [r h1] eqn:Hrun. simpl in Hinit. subst r.
  rewrite (grouped_optimizer_run E c kw model _ defaults h1) by done.
  assert (filter (λ p, ¬ has_optim p) model = []) as ->; [|done].
  induction Hall as [|p model Hp' _ IH]; [done|].
  by rewrite filter_cons_False by (by intros Hno).
Qed.

Lemma all_overridden_fails_witness :
  (build_optim example_env (ORef 0) [w3; w5] example_heap).1 = Err ValueError.
Proof.
  apply (all_overridden_fails example_env 0 [("TYPE", OVal (VStr "SGD")); ("PARAM", ORef 1)]
           (OVal (VStr "SGD")) SGD 1 [("lr", OVal (num 1 100)); ("momentum", OVal (num 9 10))]
           [("lr", num 1 100); ("momentum", num 9 10)]).
  - vm_compute. reflexivity.
  - reflexivity.
  - apply resolves_builtin. vm_compute. reflexivity.
  - reflexivity.
  - vm_compute. reflexivity.
  - reflexivity.
  - by_evaluation.
Defined.

(** X3. An exception of the class constructor is the exception of the
    builder: for the optimizer class when it is given the items of
    [PARAM], for the scheduler class when it is given them and the
    optimizer. *)
Theorem constructor_errors_propagate E l d t c lp kw e model optimizer
    (h : gmap nat (dict obj)) :
  h !! l = Some d → dict_get d "TYPE" = Some t →
  dict_get d "PARAM" = Some (ORef lp) → h !! lp = Some kw →
  (resolves (optim E) (easyoptim E) t (OType c) →
   (optim_init E c kw (<[fresh (dom h) := kw]> h)).1 = Err e →
   (build_optim E (ORef l) model h).1 = Err e)
  ∧ (resolves (lr_scheduler E) (easy_lr_scheduler E) t (OType c) →
     let kwargs := dict_set kw "optimizer" (OOptimizer optimizer) in
     (sched_init E c kwargs (<[fresh (dom h) := kwargs]> h)).1 = Err e →
     (build_lr_scheduler E (ORef l) optimizer h).1 = Err e).
Proof.
  intros Hl Ht Hp Hlp. split; intros Hr; simpl; intros Hinit.
  - rewrite (build_optim_run E l d t (OType c) lp kw) by done.
    destruct (optim_init E c kw _) as [r h1] eqn:Hrun. simpl in Hinit. subst r.
    by rewrite (grouped_optimizer_Err E c kw model _ e h1).
  - rewrite (build_lr_scheduler_run E l d t (OType c) lp kw) by done.
    simpl. step_bind.
    destruct (sched_init E c _ _) as [r h1]. simpl in Hinit. by subst r.
Qed.

Lemma constructor_errors_propagate_witness :
  (build_optim strict_env (ORef 4) example_model malformed_heap).1 = Err TypeError
  ∧ (build_lr_scheduler strict_env (ORef 4) example_optimizer malformed_heap).1
    = Err TypeError.
Proof.
  destruct (constructor_errors_propagate strict_env 4
              [("TYPE", OType SGD); ("PARAM", ORef 5)] (OType SGD) SGD 5
              [("momentum", OVal (num 9 10))] TypeError
              example_model example_optimizer malformed_heap)
    as [Hoptim Hsched];
    [vm_compute; reflexivity | reflexivity | reflexivity | vm_compute; reflexivity |].
  split; [apply Hoptim | apply Hsched];
    first [apply resolves_type | reflexivity].
Defined.

(** ** A name for something that cannot be called *)

(** X18. When the name in [TYPE] is found in a module but is there the
    name of an object that cannot be called ([None], a number, a string
    as the [__name__] of the module, a tuple, a dict or an optimizer), the
    builder looks no further and raises [TypeError] on calling it. *)
Theorem resolved_not_a_class E l d t ty ty' lp kw model optimizer
    (h : gmap nat (dict obj)) :
  h !! l = Some d → dict_get d "TYPE" = Some t →
  dict_get d "PARAM" = Some (ORef lp) → h !! lp = Some kw →
  (resolves (optim E) (easyoptim E) t ty → not_callable ty →
   (build_optim E (ORef l) model h).1 = Err TypeError)
  ∧ (resolves (lr_scheduler E) (easy_lr_scheduler E) t ty' → not_callable ty' →
     (build_lr_scheduler E (ORef l) optimizer h).1 = Err TypeError).
Proof.
  intros Hl Ht Hp Hlp. split; intros Hr Hty.
  - rewrite (build_optim_run E l d t ty lp kw) by done.
    unfold grouped_optimizer. step_bind. by destruct ty.
  - rewrite (build_lr_scheduler_run E l d t ty' lp kw) by done.
    by destruct ty'.
Qed.

Lemma resolved_not_a_class_witness :
  (build_optim strict_env (ORef 6) example_model malformed_heap).1 = Err TypeError
  ∧ (build_lr_scheduler strict_env (ORef 6) example_optimizer malformed_heap).1
    = Err TypeError.
Proof.
  destruct (resolved_not_a_class strict_env 6
              [("TYPE", OVal (VStr "__name__")); ("PARAM", ORef 1)]
              (OVal (VStr "__name__"))
              (OVal (VStr "torch.optim")) (OVal (VStr "torch.optim.lr_scheduler"))
              1 [("lr", OVal (num 1 100))]
              example_model example_optimizer malformed_heap)
    as [Hoptim Hsched];
    [vm_compute; reflexivity | reflexivity | reflexivity | vm_compute; reflexivity |].
  split; [apply Hoptim | apply Hsched];
    first [apply resolves_builtin; vm_compute; reflexivity | exact I].
Defined.

(** ** When the scheduler is built *)

(** X7. With a [TYPE] that resolves to a class, a [PARAM] that is a dict and a
    class that accepts its items together with the optimizer,
    [build_lr_scheduler] returns a scheduler of that class.  The
    constructor is run on the heap with one new dict, the copy of [PARAM]
    with the optimizer in it, and the heap is left as the constructor
    leaves it. *)
Theorem scheduler_built E l d t c lp kw optimizer (h h' : gmap nat (dict obj)) :
  h !! l = Some d → dict_get d "TYPE" = Some t →
  resolves (lr_scheduler E) (easy_lr_scheduler E) t (OType c) →
  dict_get d "PARAM" = Some (ORef lp) → h !! lp = Some kw →
  let kwargs := dict_set kw "optimizer" (OOptimizer optimizer) in
  sched_init E c kwargs (<[fresh (dom h) := kwargs]> h) = (Ok (), h') →
  build_lr_scheduler E (ORef l) optimizer h = (Ok (Scheduler c kwargs), h').
Proof.
  intros Hl Ht Hr Hp Hlp. simpl. intros Hinit.
  rewrite (build_lr_scheduler_run E l d t (OType c) lp kw) by done.
  simpl. step_bind. by rewrite Hinit.
Qed.

Lemma scheduler_built_witness :
  build_lr_scheduler example_env (ORef 2) example_optimizer example_heap
  = (Ok (Scheduler StepLR
           (dict_set [("step_size", OVal (num 30 1))] "optimizer" (OOptimizer example_optimizer))),
     <[fresh (dom example_heap) :=
         dict_set [("step_size", OVal (num 30 1))] "optimizer" (OOptimizer example_optimizer)]> example_heap).
Proof.
  apply (scheduler_built example_env 2
           [("TYPE", OVal (VStr "StepLR")); ("PARAM", ORef 3)]
           (OVal (VStr "StepLR")) StepLR 3).
  - vm_compute. reflexivity.
  - reflexivity.
  - apply resolves_builtin. vm_compute. reflexivity.
  - reflexivity.
  - vm_compute. reflexivity.
  - reflexivity.
Defined.

(** ** Optimizer, then scheduler *)

(** X8. The two builders in a row, with constructors that write only to
    dicts among their arguments: when [build_optim] has returned an
    optimizer, a scheduler configuration that was in the heap before and
    is no value of the optimizer's [PARAM], nor is its own [PARAM], is
    still good; [build_lr_scheduler] on it calls the class it resolves
    to with the items of its [PARAM] and this optimizer, and returns a
    scheduler that holds this optimizer when the class accepts them.  A
    dict that was in the heap before the two calls and is a value of
    neither [PARAM] has then the items it had. *)
Theorem optimizer_then_scheduler E cfg model opt ls ds t c lp kw
    (h : gmap nat (dict obj)) :
  writes_arguments_only E →
  (build_optim E cfg model h).1 = Ok opt →
  h !! ls = Some ds → dict_get ds "TYPE" = Some t →
  resolves (lr_scheduler E) (easy_lr_scheduler E) t (OType c) →
  dict_get ds "PARAM" = Some (ORef lp) → h !! lp = Some kw →
  ls ∉ param_refs h cfg → lp ∉ param_refs h cfg →
  let h1 := (build_optim E cfg model h).2 in
  let kwargs := dict_set kw "optimizer" (OOptimizer opt) in
  (sched_init E c kwargs (<[fresh (dom h1) := kwargs]> h1)).1 = Ok () →
  (build_lr_scheduler E (ORef ls) opt h1).1 = Ok (Scheduler c kwargs)
  ∧ dict_get kwargs "optimizer" = Some (OOptimizer opt)
  ∧ ∀ l, is_Some (h !! l) → l ∉ param_refs h cfg → l ∉ refs kw →
      (build_lr_scheduler E (ORef ls) opt h1).2 !! l = h !! l.
Proof.
  intros HE Hrun Hls Ht Hr Hp Hlp Hls' Hlp'. simpl. intros Hinit.
  assert (Hkeep : ∀ l, is_Some (h !! l) → l ∉ param_refs h cfg →
            (build_optim E cfg model h).2 !! l = h !! l).
  { intros l Hl Hrefs. by apply build_optim_frame. }
  assert (Hls1 : (build_optim E cfg model h).2 !! ls = Some ds).
  { rewrite Hkeep; [done| by eexists | done]. }
  assert (Hlp1 : (build_optim E cfg model h).2 !! lp = Some kw).
  { rewrite Hkeep; [done| by eexists | done]. }
  split_and!.
  - rewrite (build_lr_scheduler_run E ls ds t (OType c) lp kw) by done.
    simpl. step_bind.
    destruct (sched_init E c _ _) as [[[]|e] h2]; [done|]. by simpl in Hinit.
  - rewrite dict_get_set. by rewrite decide_True.
  - intros l Hl Hrefs Hkw. rewrite <- (Hkeep l Hl Hrefs).
    apply build_lr_scheduler_frame; [done| |].
    + rewrite Hkeep by done. done.
    + by rewrite (param_refs_ref _ ls ds lp kw).
Qed.

Lemma optimizer_then_scheduler_witness :
  (build_lr_scheduler noting_env (ORef 3) noting_optimizer
     (build_optim noting_env (ORef 0) example_model nested_heap).2).1
  = Ok (Scheduler NotingLR
          (dict_set [("step_size", OVal (num 30 1)); ("options", ORef 5)] "optimizer"
             (OOptimizer noting_optimizer)))
  ∧ dict_get (dict_set [("step_size", OVal (num 30 1)); ("options", ORef 5)] "optimizer"
                (OOptimizer noting_optimizer)) "optimizer"
    = Some (OOptimizer noting_optimizer)
  ∧ ∀ l, is_Some (nested_heap !! l) → l ∉ param_refs nested_heap (ORef 0) →
      l ∉ refs [("step_size", OVal (num 30 1)); ("options", ORef 5)] →
      (build_lr_scheduler noting_env (ORef 3) noting_optimizer
         (build_optim noting_env (ORef 0) example_model nested_heap).2).2 !! l
      = nested_heap !! l.
Proof.
  apply (optimizer_then_scheduler noting_env (ORef 0) example_model
           noting_optimizer 3 [("TYPE", OType NotingLR); ("PARAM", ORef 4)]
           (OType NotingLR) NotingLR 4
           [("step_size", OVal (num 30 1)); ("options", ORef 5)]).
  - apply noting_env_local.
  - vm_compute. reflexivity.
  - vm_compute. reflexivity.
  - reflexivity.
  - apply resolves_type.
  - reflexivity.
  - vm_compute. reflexivity.
  - by_evaluation.
  - by_evaluation.
  - vm_compute. reflexivity.
Defined.

(** ** More on the groups *)

Lemma as_tensors_hyper v ps : as_tensors (Hyper v) = Ok ps → ps = [].
Proof. destruct v as [|q|[|a s]|[|q l]]; simpl; congruence. Qed.

(** The members of the added groups, whatever the keys of the overrides. *)
Lemma special_group_members E cfg model h opt h' :
  model_wf model →
  build_optim E cfg model h = (Ok opt, h') →
  ∃ gs, param_groups opt = default_group (o_defaults opt) model :: gs
    ∧ Forall2 (λ s g, ∀ p, p ∈ group_params g → p ∈ model ∧ override_of p = Some s)
        (override_sets model) gs.
Proof.
  intros Hwf (gs & Hgs & HF)%build_optim_groups.
  exists gs. split; [done|]. unfold special_hps in HF.
  apply (Forall2_fmap_l (λ s, dict_update [] (elements s))
           (λ hp g, stored_group (o_defaults opt) (special_group model hp) g)) in HF.
  apply Forall2_same_length_lookup in HF as [Hlen HF].
  apply Forall2_same_length_lookup. split; [done|].
  intros i s g Hs Hg p Hin. specialize (HF i s g Hs Hg). simpl in HF.
  apply list_elem_of_lookup_2 in Hs.
  destruct (special_hp_spec model s Hwf Hs) as (_ & Hhpwf & _).
  apply stored_group_params in HF as (e & He & Hps).
  rewrite dict_get_special_group in He by done.
  destruct (dict_get (dict_update [] (elements s)) "params") as [v|]; simpl in He.
  - injection He as <-. apply as_tensors_hyper in Hps. rewrite Hps in Hin.
    by apply elem_of_nil in Hin.
  - injection He as <-. simpl in Hps. injection Hps as Hps. rewrite <- Hps in Hin.
    apply list_elem_of_filter in Hin as [Heq Hp]. split; [done|].
    apply (optim_eq_spec model p s); [done..|].
    by destruct (optim_eq p _).
Qed.

Lemma distinct_overrides_override_sets model :
  list_to_set (override_sets model) = distinct_overrides model.
Proof.
  apply set_eq. intros s. unfold distinct_overrides.
  rewrite !elem_of_list_to_set, elem_of_override_sets, list_elem_of_omap. done.
Qed.

(** X9. The optimizer returned has one group more than the parameters of
    the model carry distinct override sets, whatever these bind. *)
Theorem group_count E cfg model h opt :
  (build_optim E cfg model h).1 = Ok opt →
  length (param_groups opt) = S (size (distinct_overrides model)).
Proof.
  intros [h' (gs & Hgs & HF)%build_optim_groups]%build_optim_fst_Ok.
  rewrite Hgs. simpl. f_equal.
  rewrite <- (Forall2_length _ _ _ HF). unfold special_hps. rewrite length_fmap.
  rewrite <- distinct_overrides_override_sets.
  symmetry. apply size_list_to_set, NoDup_override_sets.
Qed.

Lemma group_count_witness :
  length (param_groups example_optimizer) = S (size (distinct_overrides example_model)).
Proof.
  apply (group_count example_env (ORef 0) example_model example_heap).
  vm_compute. reflexivity.
Defined.

(** X10. A parameter that carries [_optim], whatever the dict, is not in
    group 0: the hyperparameters of [PARAM] alone never apply to it. *)
Theorem overridden_not_in_group_0 E cfg model h opt p :
  (build_optim E cfg model h).1 = Ok opt →
  has_optim p → ¬ in_group opt 0 p.
Proof.
  intros [h' (gs & Hgs & _)%build_optim_groups]%build_optim_fst_Ok Hhas.
  intros (g & Hg & Hin). rewrite Hgs in Hg. injection Hg as <-.
  rewrite default_group_params in Hin.
  by apply list_elem_of_filter in Hin as [Hno _].
Qed.

Lemma overridden_not_in_group_0_witness : ¬ in_group example_optimizer 0 w3.
Proof.
  apply (overridden_not_in_group_0 example_env (ORef 0) example_model example_heap).
  - vm_compute. reflexivity.
  - by_evaluation.
Defined.

(** X11. No parameter is in two groups of the optimizer returned, whatever the
    overrides bind. *)
Theorem never_in_two_groups E cfg model h opt p i j :
  model_wf model →
  (build_optim E cfg model h).1 = Ok opt →
  in_group opt i p → in_group opt j p → i = j.
Proof.
  intros Hwf [h' Hrun]%build_optim_fst_Ok.
  destruct (special_group_members _ _ _ _ _ _ Hwf Hrun) as (gs & Hgs & HF).
  assert (Hwhere : ∀ i, in_group opt i p →
    (i = 0 ∧ ¬ has_optim p)
    ∨ ∃ i' s, i = S i' ∧ override_sets model !! i' = Some s ∧ override_of p = Some s).
  { intros [|i'] (g & Hg & Hin); rewrite Hgs in Hg; simpl in Hg.
    - left. injection Hg as <-. rewrite default_group_params in Hin.
      by apply list_elem_of_filter in Hin as [Hno _].
    - right. destruct (Forall2_lookup_r _ _ _ _ _ HF Hg) as (s & Hs & Hmem).
      exists i', s. split_and!; [done..|]. by apply Hmem. }
  intros [[-> Hno]|(i' & s & -> & Hs & Hov)]%Hwhere
         [[-> Hno']|(j' & s' & -> & Hs' & Hov')]%Hwhere; [done| | |].
  - destruct Hno. unfold has_optim, override_of in *.
    by destruct (p_optim p).
  - destruct Hno'. unfold has_optim, override_of in *.
    by destruct (p_optim p).
  - f_equal. rewrite Hov in Hov'. injection Hov' as <-.
    by apply (NoDup_lookup (override_sets model) i' j' s);
      [apply NoDup_override_sets|..].
Qed.

Lemma never_in_two_groups_witness :
  in_group example_optimizer 2 w3 ∧ 2 = 2.
Proof.
  assert (Hin : in_group example_optimizer 2 w3).
  { eexists. split; [reflexivity|]. by_evaluation. }
  split; [exact Hin|].
  apply (never_in_two_groups example_env (ORef 0) example_model example_heap
           example_optimizer w3 2 2).
  - by_evaluation.
  - vm_compute. reflexivity.
  - exact Hin.
  - exact Hin.
Defined.

(** ** The hyperparameters of a parameter *)

(** X12. When no override dict binds ["params"], every parameter of the model
    is in a group whose hyperparameters are, key by key, the value of its
    own [_optim] where that has the key and the default of the optimizer
    elsewhere. *)
Theorem effective_hyperparameters E cfg model h opt p :
  model_wf model → no_params_key model →
  (build_optim E cfg model h).1 = Ok opt →
  p ∈ model →
  ∃ i g, param_groups opt !! i = Some g ∧ p ∈ group_params g
    ∧ ∀ k, k ≠ "params" →
        dict_get g k
        = Hyper <$> from_option Some (dict_get (o_defaults opt) k)
                      (p_optim p ≫= λ d, dict_get d k).
Proof.
  intros Hwf Hkey [h' Hrun]%build_optim_fst_Ok Hp.
  destruct (special_groups_spec _ _ _ _ _ _ Hwf Hkey Hrun) as (gs & Hgs & HF).
  destruct (p_optim p) as [d|] eqn:Hd; simpl.
  - assert (Hdwf : dict_wf d) by by apply (model_wf_elem model p).
    assert (Hs : frozenset_items d ∈ override_sets model).
    { apply elem_of_override_sets. exists p. split; [done|].
      unfold override_of. by rewrite Hd. }
    apply list_elem_of_lookup_1 in Hs as [j Hj].
    destruct (Forall2_lookup_l _ _ _ _ _ HF Hj) as (g & Hg & (Hps & Hset) & Hrest).
    exists (S j), g. rewrite Hgs. split_and!; [done| |].
    + rewrite Hps. apply list_elem_of_filter. split; [|done].
      unfold override_of. by rewrite Hd.
    + intros k Hk. destruct (dict_get d k) as [v|] eqn:Hv; simpl.
      * apply Hset. by apply elem_of_list_to_set, dict_get_Some_elem_of.
      * apply Hrest; [done|]. intros v Hin.
        apply elem_of_list_to_set in Hin.
        apply dict_get_elem_of in Hin; [congruence|done].
  - exists 0, (default_group (o_defaults opt) model). rewrite Hgs.
    split_and!; [done| |].
    + rewrite default_group_params. apply list_elem_of_filter. split; [|done].
      unfold has_optim. rewrite Hd. by intros [? ?].
    + intros k Hk. unfold default_group. rewrite dict_get_fill_defaults. simpl.
      by rewrite decide_False.
Qed.

Lemma effective_hyperparameters_witness :
  ∃ i g, param_groups example_optimizer !! i = Some g ∧ w6 ∈ group_params g
    ∧ ∀ k, k ≠ "params" →
        dict_get g k
        = Hyper <$> from_option Some (dict_get (o_defaults example_optimizer) k)
                      (p_optim w6 ≫= λ d, dict_get d k).
Proof.
  apply (effective_hyperparameters example_env (ORef 0) example_model example_heap).
  - by_evaluation.
  - by_evaluation.
  - vm_compute. reflexivity.
  - by_evaluation.
Defined.

(** ** No empty group *)

(** The default group of a run that returned holds a parameter. *)
Lemma default_group_nonempty E cfg model h opt h' :
  build_optim E cfg model h = (Ok opt, h') →
  filter (λ p, ¬ has_optim p) model ≠ [].
Proof.
  intros Hrun.
  apply build_optim_Ok in Hrun
    as (l & d & t & ty & lp & kw & _ & _ & _ & _ & _ & _ & Hopt).
  by apply grouped_optimizer_Ok in Hopt as (c & gs & _ & _ & _ & Hne & _).
Qed.

(** X17. When no override dict binds ["params"], no group of the optimizer
    returned is empty: group 0 because the optimizer class refuses an
    empty list, the others because each override set comes from a
    parameter. *)
Theorem no_empty_group E cfg model h opt i g :
  model_wf model → no_params_key model →
  (build_optim E cfg model h).1 = Ok opt →
  param_groups opt !! i = Some g → group_params g ≠ [].
Proof.
  intros Hwf Hkey [h' Hrun]%build_optim_fst_Ok Hg.
  destruct (special_groups_spec _ _ _ _ _ _ Hwf Hkey Hrun) as (gs & Hgs & HF).
  rewrite Hgs in Hg. destruct i as [|i]; simpl in Hg.
  - injection Hg as <-. rewrite default_group_params.
    by eapply default_group_nonempty.
  - destruct (Forall2_lookup_r _ _ _ _ _ HF Hg) as (s & Hs & [Hps _] & _).
    apply list_elem_of_lookup_2, elem_of_override_sets in Hs as (p & Hp & Hov).
    rewrite Hps. intros Hnil.
    assert (Hin : p ∈ filter (λ q, override_of q = Some s) model).
    { by apply list_elem_of_filter. }
    rewrite Hnil in Hin. by apply elem_of_nil in Hin.
Qed.

Lemma no_empty_group_witness :
  ∃ g, param_groups example_optimizer !! 3 = Some g ∧ group_params g ≠ [].
Proof.
  eexists. split; [reflexivity|].
  apply (no_empty_group example_env (ORef 0) example_model example_heap
           example_optimizer 3).
  - by_evaluation.
  - by_evaluation.
  - vm_compute. reflexivity.
  - reflexivity.
Defined.

(** ** The order of the groups *)

Lemma run_tail_incomparable {A} (lt : A → A → bool) prev (l : list A) :
  (∀ x, x ∈ l → lt x prev = false) →
  (∀ x y, x ∈ l → y ∈ l → lt x y = false) →
  run_tail lt false prev l = length l.
Proof.
  revert prev. induction l as [|x l IH]; intros prev Hprev Hall; simpl; [done|].
  rewrite bool_decide_eq_true_2 by (apply Hprev; left). f_equal. apply IH.
  - intros y Hy. apply Hall; [by right | left].
  - intros y z Hy Hz. apply Hall; by right.
Qed.

(** Elements of which none is less than another are left as they are. *)
Lemma sorted_incomparable {A} (lt : A → A → bool) (l : list A) :
  (∀ x y, x ∈ l → y ∈ l → lt x y = false) → sorted lt l = l.
Proof.
  intros Hall. unfold sorted.
  assert (Hrun : count_run lt l = (length l, false)).
  { destruct l as [|x [|y l]]; simpl; [done..|].
    rewrite (Hall y x) by (repeat constructor). simpl. do 3 f_equal.
    apply run_tail_incomparable.
    - intros z Hz. apply Hall; [by do 2 right | right; left].
    - intros z z' Hz Hz'. apply Hall; by do 2 right. }
  rewrite Hrun. by rewrite take_ge, drop_ge by lia.
Qed.

(** X14. When no override set of the model is a proper subset of another, as
    when all overrides bind the same keys, the override sets come in the
    order in which the parameters first show them, and so do the groups. *)
Theorem override_sets_first_occurrence model :
  let sets := frozenset_items <$> omap p_optim model in
  Forall (λ s, Forall (λ t, ¬ s ⊂ t) sets) sets →
  override_sets model = fromkeys sets.
Proof.
  simpl. intros Hall. unfold override_sets. apply sorted_incomparable.
  intros s t Hs Ht. apply (proj1 (elem_of_fromkeys _ _)) in Hs, Ht.
  unfold frozenset_lt. apply bool_decide_eq_false.
  rewrite Forall_forall in Hall. specialize (Hall s Hs).
  rewrite Forall_forall in Hall. by apply Hall.
Qed.

Lemma override_sets_first_occurrence_witness :
  override_sets [w5; w3; w4]
  = fromkeys (frozenset_items <$> omap p_optim [w5; w3; w4]).
Proof. apply (override_sets_first_occurrence [w5; w3; w4]). by_evaluation. Defined.

(** ** [sorted] under a total order *)

Section sorted_total.
Context {A : Type} (lt : A → A → bool).
Hypothesis lt_irrefl : ∀ x, lt x x = false.
Hypothesis lt_trans : ∀ x y z, lt x y = true → lt y z = true → lt x z = true.
Hypothesis lt_total : ∀ x y, lt x y = true ∨ x = y ∨ lt y x = true.

Lemma lt_asym x y : lt x y = true → lt y x = false.
Proof.
  intros Hxy. destruct (lt y x) eqn:Hyx; [|done].
  by rewrite <- (lt_irrefl x), <- (lt_trans x y x).
Qed.

Lemma not_gt_cases x y : (not_gt lt) x y ↔ lt x y = true ∨ x = y.
Proof.
  unfold not_gt. split.
  - intros Hyx. destruct (lt_total x y) as [?|[?|?]]; [by left|by right|congruence].
  - intros [?%lt_asym| ->]; [done | apply lt_irrefl].
Qed.

#[local] Instance not_gt_trans : Transitive (not_gt lt).
Proof.
  intros x y z [Hxy| ->]%not_gt_cases [Hyz| ->]%not_gt_cases;
    apply not_gt_cases; eauto.
Qed.










End sorted_total.

(** ** The order of strings *)








(** ** The summary *)

Section dict_keys.
Context {A : Type}.



End dict_keys.





(** The lines for the example: the default group first, then the groups
    in the order of their override sets, each with every key. *)
Example example_summary :
  (build_optim_printing show_kind example_env (ORef 0) example_model example_heap).1
  = Ok (example_optimizer,
        ["Optimizer group 0 | 2 tensors | lr <value> | weight_decay None";
         "Optimizer group 1 | 1 tensors | lr <value> | weight_decay None";
         "Optimizer group 2 | 2 tensors | lr <value> | weight_decay None";
         "Optimizer group 3 | 1 tensors | lr <value> | weight_decay None";
         "Optimizer group 4 | 2 tensors | lr <value> | weight_decay <value>"]).
Proof. vm_compute. reflexivity. Qed.

